(** * Kora rent-reclaim bot: the Discover / Evaluate / Reclaim pipeline

    A shallow embedding of [src/core/RentReclaimer.ts] and of the helpers of
    [src/utils/solana.ts] and [src/utils/logger.ts] it calls, followed by the
    properties of the pipeline.

    Conventions of the embedding.
    - A JavaScript [number] holding lamports, a unix time or a length is an
      exact integer ([Z]); the elapsed-days quotient of [hasRecentActivity]
      is an exact rational ([Q]). The inactivity threshold is what
      [Number(...)] makes of an environment string ([JsNumber]): a
      rational, an infinity, or [NaN].
    - An [async] function is a function of the process state that returns
      either the thrown error or the value, together with the new state
      ([Promise]).
    - The remote ledger is a [Connection]: one response per request, a
      response being either an error (the call throws) or a value.
    - [Date.now()] reads a clock given as the sequence of its successive
      readings; [new PublicKey(s)] throws exactly on the strings the host
      rejects. *)

From Stdlib Require Import ZArith QArith.
From stdpp Require Import base strings list gmap pretty.

#[local] Open Scope string_scope.
#[local] Open Scope list_scope.
#[local] Open Scope Z_scope.

(** ** Data model ([src/types.ts]) *)

Definition exn := string.

(** The value of [Number(s)] for an environment string [s]: a finite
    number, an infinity, or [NaN] when [s] is no numeral. *)
Inductive JsNumber :=
| NaN
| Infinity
| NegInfinity
| Num (q : Q).

Inductive ReclaimReason :=
| ACCOUNT_CLOSED
| ACCOUNT_EMPTY
| ACCOUNT_INACTIVE.

Definition reasonText (r : ReclaimReason) : string :=
  match r with
  | ACCOUNT_CLOSED => "Account is closed (zero balance)"
  | ACCOUNT_EMPTY => "Account data is empty"
  | ACCOUNT_INACTIVE => "Account inactive for extended period"
  end.

Record Config := {
  minRentThreshold : Z;
  accountAgeThreshold : JsNumber
}.

Record SponsoredAccount := {
  address : string;
  lamports : Z;
  owner : string;
  executable : bool;
  dataLength : Z;
  lastActivity : option Z
}.

(** [ReclaimableAccount extends SponsoredAccount]: the inherited fields are
    kept together in [base]. *)
Record ReclaimableAccount := {
  base : SponsoredAccount;
  reason : ReclaimReason;
  estimatedRent : Z
}.

Record ReclaimResult := {
  success : bool;
  accountAddress : string;
  reclaimedAmount : Z;
  signature : option string;
  error : option string;
  timestamp : Z
}.

Record RentStats := {
  totalAccountsMonitored : nat;
  totalRentLocked : Z;
  totalRentReclaimed : Z;
  reclaimableAccounts : nat;
  estimatedReclaimable : Z;
  lastScanTimeStat : Z
}.

(** ** The remote ledger ([@solana/web3.js]) *)

Record AccountInfo := {
  info_lamports : Z;
  info_owner : string;
  info_executable : bool;
  info_data : list Byte.byte
}.

Record ConfirmedSignatureInfo := {
  sig_signature : string;
  blockTime : option Z
}.

(** [SystemProgram.transfer({ fromPubkey, toPubkey, lamports })]. *)
Record Transfer := {
  fromPubkey : string;
  toPubkey : string;
  transferLamports : Z
}.

(** A parsed transaction is represented by the base58 form of
    [tx.transaction.message.accountKeys]; [None] stands for a response in
    which the optional chain [tx?.transaction?.message?.accountKeys] is
    missing. *)
Record Connection := {
  getAccountInfo : string → exn + option AccountInfo;
  getSignaturesForAddress : string → nat → exn + list ConfirmedSignatureInfo;
  getParsedTransaction : string → exn + option (list string);
  sendAndConfirmTransaction : Transfer → string → exn + string
}.

Record Host := {
  Date_now : nat → Z;
  PublicKey_valid : string → bool
}.

Definition SystemProgram_programId : string :=
  "11111111111111111111111111111111".

(** ** Process state and the [Promise] monad *)

Inductive Level := info | warn | error_level.

Inductive LogEntry :=
| Log (lvl : Level) (msg : string)
| LogError (lvl : Level) (msg : string) (err : exn)
| LogAmount (lvl : Level) (msg : string) (amount : Z)
| LogReclaim (acct : string) (amountLamports : Z) (ok : bool)
             (sig err : option string)
| LogScan (totalAccounts reclaimableCount : nat)
          (totalReclaimableLamports : Z)
| LogBatch (total successful failed : nat) (totalLamports : Z).

Record World := {
  ticks : nat;
  logs : list LogEntry;
  confirmed : list Transfer;
  lifetimeReclaimed : Z;
  lastScanTime : Z
}.

Definition Promise (A : Type) : Type := World → (exn + A) * World.

Definition resolve {A} (a : A) : Promise A := fun w => (inr a, w).

Definition throw {A} (e : exn) : Promise A := fun w => (inl e, w).

Definition await {A B} (m : Promise A) (k : A → Promise B) : Promise B :=
  fun w =>
    match m w with
    | (inr a, w') => k a w'
    | (inl e, w') => (inl e, w')
    end.

Definition try_catch {A} (body : Promise A) (handler : exn → Promise A)
  : Promise A :=
  fun w =>
    match body w with
    | (inr a, w') => (inr a, w')
    | (inl e, w') => handler e w'
    end.

(** Lifts a response of the ledger: an error response is a throw. *)
Definition rpc {A} (r : exn + A) : Promise A := fun w => (r, w).

#[export] Instance promise_ret : MRet Promise := @resolve.
#[export] Instance promise_bind : MBind Promise :=
  fun A B k m => await m k.

(** State updates: one more log line, one more clock reading, one more
    confirmed transfer, and the two running totals of the instance. *)
Definition logged (e : LogEntry) (w : World) : World :=
  {| ticks := ticks w; logs := logs w ++ [e]; confirmed := confirmed w;
     lifetimeReclaimed := lifetimeReclaimed w;
     lastScanTime := lastScanTime w |}.

Definition ticked (w : World) : World :=
  {| ticks := S (ticks w); logs := logs w; confirmed := confirmed w;
     lifetimeReclaimed := lifetimeReclaimed w;
     lastScanTime := lastScanTime w |}.

Definition transferred (tx : Transfer) (w : World) : World :=
  {| ticks := ticks w; logs := logs w; confirmed := confirmed w ++ [tx];
     lifetimeReclaimed := lifetimeReclaimed w;
     lastScanTime := lastScanTime w |}.

Definition credited (n : Z) (w : World) : World :=
  {| ticks := ticks w; logs := logs w; confirmed := confirmed w;
     lifetimeReclaimed := lifetimeReclaimed w + n;
     lastScanTime := lastScanTime w |}.

Definition scannedAt (t : Z) (w : World) : World :=
  {| ticks := ticks w; logs := logs w; confirmed := confirmed w;
     lifetimeReclaimed := lifetimeReclaimed w; lastScanTime := t |}.

Definition logger (e : LogEntry) : Promise unit :=
  fun w => (inr tt, logged e w).

(** [Date.now()] *)
Definition now (host : Host) : Promise Z :=
  fun w => (inr (Date_now host (ticks w)), ticked w).

(** [new PublicKey(s)] *)
Definition newPublicKey (host : Host) (s : string) : Promise string :=
  if PublicKey_valid host s then resolve s
  else throw "Invalid public key input".

(** [sendAndConfirmTransaction(connection, tx, [signer], ...)] *)
Definition send (connection : Connection) (tx : Transfer) (signer : string)
  : Promise string :=
  fun w =>
    match sendAndConfirmTransaction connection tx signer with
    | inr sg => (inr sg, transferred tx w)
    | inl e => (inl e, w)
    end.

(** [this.lifetimeReclaimed += n] *)
Definition addLifetimeReclaimed (n : Z) : Promise unit :=
  fun w => (inr tt, credited n w).

(** [this.lastScanTime = t] *)
Definition setLastScanTime (t : Z) : Promise unit :=
  fun w => (inr tt, scannedAt t w).

(** ** [src/utils/logger.ts] *)

(** The payload of both lines also holds [new Date().toISOString()]; the
    entries do not keep it, and [ticks] counts the readings of [Date.now()]
    only. *)

Definition logReclaimOperation (accountAddress : string) (amountLamports : Z)
    (ok : bool) (sg er : option string) : Promise unit :=
  logger (LogReclaim accountAddress amountLamports ok sg er).

Definition logScanResults (totalAccounts reclaimableCount : nat)
    (totalReclaimableLamports : Z) : Promise unit :=
  logger (LogScan totalAccounts reclaimableCount totalReclaimableLamports).

(** ** [src/utils/solana.ts] *)

Module Solana.

Definition fetchAccountInfo (host : Host) (connection : Connection)
    (addr : string) : Promise (option AccountInfo) :=
  try_catch
    (pk ← newPublicKey host addr;
     rpc (getAccountInfo connection pk))
    (fun err =>
       logger (LogError error_level
                 ("fetchAccountInfo failed for " +:+ addr) err);;
       resolve None).

Definition isAccountClosed (i : option AccountInfo) : bool :=
  match i with
  | None => true
  | Some a => info_lamports a =? 0
  end.

Definition hasEmptyData (i : option AccountInfo) : bool :=
  match i with
  | None => false
  | Some a => Nat.eqb (length (info_data a)) 0
  end.

(** [(Date.now() - blockTime * 1000) / (1000 * 60 * 60 * 24)] *)
Definition daysSince (t bt : Z) : Q :=
  (inject_Z (t - bt * 1000) / inject_Z (1000 * 60 * 60 * 24))%Q.

Definition Qltb (x y : Q) : bool := negb (Qle_bool y x).

(** [x < y] for a finite [x]: never against [NaN], always against
    [Infinity], never against [-Infinity]. *)
Definition lessThan (x : Q) (y : JsNumber) : bool :=
  match y with
  | NaN => false
  | Infinity => true
  | NegInfinity => false
  | Num q => Qltb x q
  end.

(** [!blockTime]: [null], [undefined] and [0] are falsy. *)
Definition falsyTime (bt : option Z) : bool :=
  match bt with
  | None => true
  | Some t => t =? 0
  end.

Definition hasRecentActivity (host : Host) (connection : Connection)
    (addr : string) (daysThreshold : JsNumber) : Promise bool :=
  try_catch
    (pk ← newPublicKey host addr;
     sigs ← rpc (getSignaturesForAddress connection pk 1);
     match sigs with
     | [] => resolve false
     | s0 :: _ =>
         match blockTime s0 with
         | Some bt =>
             if bt =? 0 then resolve true
             else
               t ← now host;
               resolve (lessThan (daysSince t bt) daysThreshold)
         | None => resolve true
         end
     end)
    (fun err =>
       logger (LogError error_level
                 ("hasRecentActivity check failed for " +:+ addr) err);;
       resolve true).

Record CloseResult := {
  close_success : bool;
  close_signature : option string;
  close_error : option string
}.

Definition closeAccountAndReclaimRent (connection : Connection)
    (feePayer accountToClose treasury : string) : Promise CloseResult :=
  try_catch
    (i ← rpc (getAccountInfo connection accountToClose);
     match i with
     | None =>
         resolve {| close_success := false; close_signature := None;
                    close_error :=
                      Some "Account does not exist or is already closed." |}
     | Some a =>
         if info_lamports a =? 0 then
           resolve {| close_success := false; close_signature := None;
                      close_error :=
                        Some "Account already has zero balance." |}
         else if negb (String.eqb (info_owner a) SystemProgram_programId) then
           resolve {| close_success := false; close_signature := None;
                      close_error :=
                        Some ("Account is owned by " +:+ info_owner a +:+
                              " — needs a program-specific close instruction.") |}
         else
           sg ← send connection
                  {| fromPubkey := accountToClose; toPubkey := treasury;
                     transferLamports := info_lamports a |} feePayer;
           logger (LogAmount info ("Rent reclaimed: " +:+ accountToClose)
                     (info_lamports a));;
           resolve {| close_success := true; close_signature := Some sg;
                      close_error := None |}
     end)
    (fun msg =>
       logger (LogError error_level
                 ("closeAccountAndReclaimRent failed for " +:+ accountToClose)
                 msg);;
       resolve {| close_success := false; close_signature := None;
                  close_error := Some msg |}).

End Solana.

(** ** [src/core/RentReclaimer.ts] *)

(** The fields of the class set once by the constructor; the two running
    totals of the instance are the [lifetimeReclaimed] and [lastScanTime]
    components of the process state. [feePayer] is the base58 public key of
    the decoded keypair. *)
Record RentReclaimer := {
  connection : Connection;
  feePayer : string;
  treasury : string;
  config : Config
}.

Definition withLamports (acct : SponsoredAccount) (l : Z) : SponsoredAccount :=
  {| address := address acct; lamports := l; owner := owner acct;
     executable := executable acct; dataLength := dataLength acct;
     lastActivity := lastActivity acct |}.

Section Reclaimer.

Variable host : Host.
Variable this : RentReclaimer.

(** *** 1. Discover *)

(** The inner loop of [getSponsoredAccounts], over the account keys of one
    parsed transaction. *)
Fixpoint collectKeys (sigInfo : ConfirmedSignatureInfo) (keys : list string)
    (seen : gset string) (result : list SponsoredAccount)
  : Promise (gset string * list SponsoredAccount) :=
  match keys with
  | [] => resolve (seen, result)
  | addr :: rest =>
      if decide (addr ∈ seen) then collectKeys sigInfo rest seen result
      else
        let seen := seen ∪ {[addr]} in
        i ← Solana.fetchAccountInfo host (connection this) addr;
        match i with
        | None =>
            collectKeys sigInfo rest seen
              (result ++ [{| address := addr; lamports := 0; owner := "";
                              executable := false; dataLength := 0;
                              lastActivity := blockTime sigInfo |}])
        | Some a =>
            collectKeys sigInfo rest seen
              (result ++ [{| address := addr; lamports := info_lamports a;
                              owner := info_owner a;
                              executable := info_executable a;
                              dataLength := Z.of_nat (length (info_data a));
                              lastActivity := blockTime sigInfo |}])
        end
  end.

(** The outer loop, over the signatures of the history window. A signature
    whose transaction cannot be fetched, or has no account keys, is passed
    over. *)
Fixpoint scanSignatures (signatures : list ConfirmedSignatureInfo)
    (seen : gset string) (result : list SponsoredAccount)
  : Promise (list SponsoredAccount) :=
  match signatures with
  | [] => resolve result
  | sigInfo :: rest =>
      tx ← try_catch
             (rpc (getParsedTransaction (connection this)
                     (sig_signature sigInfo)))
             (fun _ => resolve None);
      match tx with
      | None => scanSignatures rest seen result
      | Some keys =>
          '(seen', result') ← collectKeys sigInfo keys seen result;
          scanSignatures rest seen' result'
      end
  end.

Definition getSponsoredAccounts : Promise (list SponsoredAccount) :=
  logger (Log info "Fetching sponsored accounts …");;
  try_catch
    (signatures ← rpc (getSignaturesForAddress (connection this)
                         (feePayer this) 100);
     result ← scanSignatures signatures ∅ [];
     logger (Log info ("Found " +:+ pretty (length result) +:+
                       " sponsored accounts"));;
     resolve result)
    (fun err =>
       logger (LogError error_level "getSponsoredAccounts failed" err);;
       resolve []).

(** *** 2. Evaluate *)

(** The body of the loop of [identifyReclaimableAccounts]: the three rules
    applied to one account, [reclaimable] being the array built so far. *)
Definition evaluateAccount (acct : SponsoredAccount)
    (reclaimable : list ReclaimableAccount)
  : Promise (list ReclaimableAccount) :=
  let minRent := minRentThreshold (config this) in
  let ageDays := accountAgeThreshold (config this) in
  try_catch
    (i ← Solana.fetchAccountInfo host (connection this) (address acct);
     if Solana.isAccountClosed i then
       if lamports acct >=? minRent then
         resolve (reclaimable ++
                  [{| base := acct; reason := ACCOUNT_CLOSED;
                      estimatedRent := lamports acct |}])
       else resolve reclaimable
     else
       match i with
       | None => throw "TypeError: Cannot read properties of null"
       | Some live =>
           if Solana.hasEmptyData (Some live)
              && (info_lamports live >=? minRent) then
             resolve (reclaimable ++
                      [{| base := withLamports acct (info_lamports live);
                          reason := ACCOUNT_EMPTY;
                          estimatedRent := info_lamports live |}])
           else if info_lamports live >=? minRent then
             active ← Solana.hasRecentActivity host (connection this)
                        (address acct) ageDays;
             if negb active then
               resolve (reclaimable ++
                        [{| base := withLamports acct (info_lamports live);
                            reason := ACCOUNT_INACTIVE;
                            estimatedRent := info_lamports live |}])
             else resolve reclaimable
           else resolve reclaimable
       end)
    (fun err =>
       logger (LogError warn
                 ("Skipping " +:+ address acct +:+ " — evaluation error")
                 err);;
       resolve reclaimable).

Fixpoint evaluateAll (accounts : list SponsoredAccount)
    (reclaimable : list ReclaimableAccount)
  : Promise (list ReclaimableAccount) :=
  match accounts with
  | [] => resolve reclaimable
  | acct :: rest =>
      reclaimable' ← evaluateAccount acct reclaimable;
      evaluateAll rest reclaimable'
  end.

Definition sumEstimated (l : list ReclaimableAccount) : Z :=
  foldl (fun s a => s + estimatedRent a) 0 l.

(** The closing log line prints the total in SOL; the entry keeps it in
    lamports. *)
Definition identifyReclaimableAccounts (accounts : list SponsoredAccount)
  : Promise (list ReclaimableAccount) :=
  logger (Log info "Identifying reclaimable accounts …");;
  reclaimable ← evaluateAll accounts [];
  logger (LogAmount info
            ("Identified " +:+ pretty (length reclaimable) +:+
             " reclaimable accounts")
            (sumEstimated reclaimable));;
  resolve reclaimable.

(** *** 3. Reclaim *)

Definition reclaimRent (account : ReclaimableAccount) : Promise ReclaimResult :=
  let addr := address (base account) in
  logger (Log info ("Reclaiming " +:+ addr +:+ " — reason: " +:+
                    reasonText (reason account)));;
  try_catch
    (pk ← newPublicKey host addr;
     res ← Solana.closeAccountAndReclaimRent (connection this)
             (feePayer this) pk (treasury this);
     t ← now host;
     let result :=
       {| success := Solana.close_success res;
          accountAddress := addr;
          reclaimedAmount :=
            if Solana.close_success res then estimatedRent account else 0;
          signature := Solana.close_signature res;
          error := Solana.close_error res;
          timestamp := t |} in
     logReclaimOperation addr (estimatedRent account)
       (Solana.close_success res) (Solana.close_signature res)
       (Solana.close_error res);;
     (if Solana.close_success res
      then addLifetimeReclaimed (estimatedRent account)
      else resolve tt);;
     resolve result)
    (fun msg =>
       logReclaimOperation addr (estimatedRent account) false None (Some msg);;
       t ← now host;
       resolve {| success := false; accountAddress := addr;
                  reclaimedAmount := 0; signature := None;
                  error := Some msg; timestamp := t |}).

(** The loop of [reclaimAll]; the one-second pause between two attempts has
    no effect on the state. *)
Fixpoint reclaimEach (accounts : list ReclaimableAccount)
    (results : list ReclaimResult) : Promise (list ReclaimResult) :=
  match accounts with
  | [] => resolve results
  | acct :: rest =>
      r ← reclaimRent acct;
      reclaimEach rest (results ++ [r])
  end.

Definition reclaimAll (accounts : list ReclaimableAccount)
  : Promise (list ReclaimResult) :=
  logger (Log info ("Batch reclaim starting — " +:+ pretty (length accounts)
                    +:+ " accounts"));;
  results ← reclaimEach accounts [];
  let ok := filter (fun r => success r = true) results in
  let total := foldl (fun s r => s + reclaimedAmount r) 0 ok in
  logger (LogBatch (length accounts) (length ok)
            (length accounts - length ok) total);;
  resolve results.

(** *** 4. Full cycle *)

Definition runScanAndReclaim
  : Promise (list SponsoredAccount * list ReclaimableAccount *
             list ReclaimResult) :=
  logger (Log info "=== Scan-and-Reclaim cycle started ===");;
  scanned ← getSponsoredAccounts;
  reclaimable ← identifyReclaimableAccounts scanned;
  logScanResults (length scanned) (length reclaimable)
    (sumEstimated reclaimable);;
  results ← reclaimAll reclaimable;
  t ← now host;
  setLastScanTime t;;
  logger (Log info "=== Scan-and-Reclaim cycle finished ===");;
  resolve (scanned, reclaimable, results).

(** *** 5. Reporting *)

(** The two sums are exact; the [reduce] of the source adds doubles, which
    gives the same as long as no partial sum leaves the range of the
    integers a double holds exactly (2^53 either side of 0). The same
    goes for [this.lifetimeReclaimed +=]. *)

Definition getStats (w : World) (scanned : list SponsoredAccount)
    (reclaimable : list ReclaimableAccount) : RentStats :=
  {| totalAccountsMonitored := length scanned;
     totalRentLocked := foldl (fun s a => s + lamports a) 0 scanned;
     totalRentReclaimed := lifetimeReclaimed w;
     reclaimableAccounts := length reclaimable;
     estimatedReclaimable := sumEstimated reclaimable;
     lastScanTimeStat := lastScanTime w |}.

End Reclaimer.

(** * Vocabulary of the properties *)

(** ** Responses and verdicts *)

(** What a request for the account, or for its latest signature, answers
    once the address has gone through [new PublicKey]. *)
Definition accountResponse (host : Host) (c : Connection) (addr : string)
  : exn + option AccountInfo :=
  if PublicKey_valid host addr then getAccountInfo c addr
  else inl "Invalid public key input".

Definition signatureResponse (host : Host) (c : Connection) (addr : string)
  : exn + list ConfirmedSignatureInfo :=
  if PublicKey_valid host addr then getSignaturesForAddress c addr 1
  else inl "Invalid public key input".

(** The record pushed under rule A, and the one pushed under rules B and C. *)
Definition closedRecord (acct : SponsoredAccount) : ReclaimableAccount :=
  {| base := acct; reason := ACCOUNT_CLOSED; estimatedRent := lamports acct |}.

Definition liveRecord (acct : SponsoredAccount) (r : ReclaimReason)
    (live : AccountInfo) : ReclaimableAccount :=
  {| base := withLamports acct (info_lamports live); reason := r;
     estimatedRent := info_lamports live |}.

(** What the loop body adds to the array for one account, and the state its
    check leaves. *)
Definition verdict (host : Host) (this : RentReclaimer)
    (acct : SponsoredAccount) (w : World) : list ReclaimableAccount :=
  match (evaluateAccount host this acct [] w).1 with
  | inr l => l
  | inl _ => []
  end.

Definition afterAccount (host : Host) (this : RentReclaimer)
    (acct : SponsoredAccount) (w : World) : World :=
  (evaluateAccount host this acct [] w).2.

(** The records the loop pushes for [accounts], in order, and the state in
    which it ends. *)
Fixpoint collected (host : Host) (this : RentReclaimer)
    (accounts : list SponsoredAccount) (w : World)
  : list ReclaimableAccount :=
  match accounts with
  | [] => []
  | acct :: rest =>
      verdict host this acct w ++
      collected host this rest (afterAccount host this acct w)
  end.

Fixpoint afterAll (host : Host) (this : RentReclaimer)
    (accounts : list SponsoredAccount) (w : World) : World :=
  match accounts with
  | [] => w
  | acct :: rest => afterAll host this rest (afterAccount host this acct w)
  end.

(** The state in which the loop of [identifyReclaimableAccounts] starts. *)
Definition evaluationStarted (w : World) : World :=
  logged (Log info "Identifying reclaimable accounts …") w.

(** The three rules read off the answers the body receives: [ar] for the
    account, [sr] for its latest signature, [t] the reading of the clock. *)
Definition classify (cfg : Config) (acct : SponsoredAccount)
    (ar : exn + option AccountInfo)
    (sr : exn + list ConfirmedSignatureInfo) (t : Z)
  : list ReclaimableAccount :=
  let ruleA :=
    if lamports acct >=? minRentThreshold cfg then [closedRecord acct]
    else [] in
  match ar with
  | inl _ | inr None => ruleA
  | inr (Some live) =>
      if info_lamports live =? 0 then ruleA
      else if Solana.hasEmptyData (Some live)
              && (info_lamports live >=? minRentThreshold cfg)
      then [liveRecord acct ACCOUNT_EMPTY live]
      else if info_lamports live >=? minRentThreshold cfg then
        match sr with
        | inl _ => []
        | inr [] => [liveRecord acct ACCOUNT_INACTIVE live]
        | inr (s0 :: _) =>
            match blockTime s0 with
            | None => []
            | Some bt =>
                if bt =? 0 then []
                else if Solana.lessThan (Solana.daysSince t bt)
                          (accountAgeThreshold cfg)
                then []
                else [liveRecord acct ACCOUNT_INACTIVE live]
            end
        end
      else []
  end.

(** [x] days are not fewer than the threshold [days]: the test
    [x < days] of the source fails. Against a threshold that is a number
    this is [days <= x]; against [NaN] it holds of every [x]. *)
Definition reached (days : JsNumber) (x : Q) : Prop :=
  match days with
  | NaN => True
  | Infinity => False
  | NegInfinity => True
  | Num q => (q <= x)%Q
  end.

(** The most recent signature says the account is inactive at time [t]:
    there is none, or it carries a non-zero timestamp whose age in days
    has reached the threshold. A lookup that fails, and a timestamp that is
    missing or zero, do not say so. *)
Definition saysInactive (sr : exn + list ConfirmedSignatureInfo) (t : Z)
    (days : JsNumber) : Prop :=
  match sr with
  | inl _ => False
  | inr [] => True
  | inr (s0 :: _) =>
      match blockTime s0 with
      | None => False
      | Some bt => bt ≠ 0 ∧ reached days (Solana.daysSince t bt)
      end
  end.

(** An account, and a record, with the discovery-time [lastActivity]
    blanked. *)
Definition withoutActivity (acct : SponsoredAccount) : SponsoredAccount :=
  {| address := address acct; lamports := lamports acct; owner := owner acct;
     executable := executable acct; dataLength := dataLength acct;
     lastActivity := None |}.

Definition selection (r : ReclaimableAccount) : ReclaimableAccount :=
  {| base := withoutActivity (base r); reason := reason r;
     estimatedRent := estimatedRent r |}.

(** ** Discovery *)

(** The account keys of the transactions of the window that could be
    fetched, in the order the loops visit them. *)
Definition parsedKeys (c : Connection) (signatures : list ConfirmedSignatureInfo)
  : list string :=
  flat_map
    (fun s =>
       match getParsedTransaction c (sig_signature s) with
       | inr (Some keys) => keys
       | _ => []
       end)
    signatures.

(** The record discovery keeps for an account it found absent. *)
Definition isGoneRecord (r : SponsoredAccount) : Prop :=
  lamports r = 0 ∧ owner r = "" ∧ executable r = false ∧ dataLength r = 0.

(** The record discovery appends for [addr], met in the transaction of
    [sigInfo], when [fetchAccountInfo] has answered [i]. *)
Definition snapshot (sigInfo : ConfirmedSignatureInfo) (addr : string)
    (i : option AccountInfo) : SponsoredAccount :=
  match i with
  | None =>
      {| address := addr; lamports := 0; owner := ""; executable := false;
         dataLength := 0; lastActivity := blockTime sigInfo |}
  | Some a =>
      {| address := addr; lamports := info_lamports a; owner := info_owner a;
         executable := info_executable a;
         dataLength := Z.of_nat (length (info_data a));
         lastActivity := blockTime sigInfo |}
  end.

(** The log line [fetchAccountInfo] writes when the request for [addr]
    fails with [e]. *)
Definition fetchFailure (addr : string) (e : exn) : LogEntry :=
  LogError error_level ("fetchAccountInfo failed for " +:+ addr) e.

(** What the loops guarantee about the records [new] they append while the
    log grows by [extra]: one record per address, and for an address whose
    request failed the record of an absent account and a line in the log. *)
Definition discovered (host : Host) (c : Connection)
    (new : list SponsoredAccount) (extra : list LogEntry) : Prop :=
  NoDup (address <$> new) ∧
  ∀ r e, r ∈ new →
    accountResponse host c (address r) = inl e →
    isGoneRecord r ∧ fetchFailure (address r) e ∈ extra.

(** ** A ledger to run the pipeline on *)

Module Scenario.

Definition world0 : World :=
  {| ticks := 0; logs := []; confirmed := []; lifetimeReclaimed := 0;
     lastScanTime := 0 |}.

Definition day : Z := 1000 * 60 * 60 * 24.

(** Last activity of the busy accounts, in unix seconds. *)
Definition lastSeen : Z := 1700000000.

Definition payload : list Byte.byte := repeat Byte.x00 32.

Definition systemAccount (l : Z) (d : list Byte.byte) : AccountInfo :=
  {| info_lamports := l; info_owner := SystemProgram_programId;
     info_executable := false; info_data := d |}.

Definition ledger : Connection :=
  {| getAccountInfo := fun a =>
       if String.eqb a "Gone" then inr None
       else if String.eqb a "Bare" then inr (Some (systemAccount 500000 []))
       else if String.eqb a "Idle" then
         inr (Some (systemAccount 3000000 payload))
       else if String.eqb a "Epoch" then
         inr (Some (systemAccount 3000000 payload))
       else if String.eqb a "Drained" then
         inr (Some (systemAccount 0 payload))
       else if String.eqb a "Grown" then
         inr (Some (systemAccount 5000000 []))
       else if String.eqb a "Flaky" then inl "429 Too Many Requests"
       else inr None;
     getSignaturesForAddress := fun a limit =>
       if String.eqb a "Payer" then
         inr [ {| sig_signature := "sig1"; blockTime := Some lastSeen |};
               {| sig_signature := "sig2"; blockTime := Some lastSeen |} ]
       else if String.eqb a "Idle" then
         inr [ {| sig_signature := "sig1"; blockTime := Some lastSeen |} ]
       else if String.eqb a "Epoch" then
         inr [ {| sig_signature := "sig0"; blockTime := Some 0 |} ]
       else inr [];
     getParsedTransaction := fun s =>
       if String.eqb s "sig1" then inr (Some ["Payer"; "Flaky"; "Idle"])
       else if String.eqb s "sig2" then inr (Some ["Idle"; "Gone"])
       else inr None;
     sendAndConfirmTransaction := fun tx signer => inr "confirmed1" |}.

(** The same ledger with the history query of the fee payer failing. *)
Definition offline : Connection :=
  {| getAccountInfo := getAccountInfo ledger;
     getSignaturesForAddress := fun a limit => inl "fetch failed";
     getParsedTransaction := getParsedTransaction ledger;
     sendAndConfirmTransaction := sendAndConfirmTransaction ledger |}.

(** A clock that stands still at [t], and one that starts six days after
    [lastSeen] and gains two days at every reading. *)
Definition frozenAt (t : Z) : Host :=
  {| Date_now := fun _ => t; PublicKey_valid := fun _ => true |}.

Definition running : Host :=
  {| Date_now := fun n => lastSeen * 1000 + 6 * day + Z.of_nat n * (2 * day);
     PublicKey_valid := fun _ => true |}.

Definition tenDaysLater : Host := frozenAt (lastSeen * 1000 + 10 * day).

Definition reclaimer (c : Connection) (minRent : Z) : RentReclaimer :=
  {| connection := c; feePayer := "Payer"; treasury := "Treasury";
     config := {| minRentThreshold := minRent;
                  accountAgeThreshold := Num 7 |} |}.

Definition sponsored (addr : string) (l : Z) (seen : option Z)
  : SponsoredAccount :=
  {| address := addr; lamports := l; owner := SystemProgram_programId;
     executable := false; dataLength := 0; lastActivity := seen |}.

End Scenario.

(** ** The fee payer's own account, before and after its balance moved *)

Module Own.

(** A ledger that checks signatures: it confirms a transfer only when the
    signer handed to the send is the account the lamports leave, as the
    system program demands of [fromPubkey]. It charges no fee: what a
    transfer costs beyond the lamports it moves is taken to have reached
    the account by the time of the send. The fee payer is a wallet, a
    system account without payload, holding [balance] lamports; every
    transaction of its history lists it among its keys. *)
Definition ledger (balance : Z) : Connection :=
  {| getAccountInfo := fun a =>
       if String.eqb a "Payer" then
         inr (Some (Scenario.systemAccount balance []))
       else if String.eqb a "Idle" then
         inr (Some (Scenario.systemAccount 3000000 []))
       else inr None;
     getSignaturesForAddress := fun a limit =>
       if String.eqb a "Payer" then
         inr [ {| sig_signature := "sig1";
                  blockTime := Some Scenario.lastSeen |} ]
       else inr [];
     getParsedTransaction := fun s =>
       if String.eqb s "sig1" then inr (Some ["Payer"; "Idle"])
       else inr None;
     sendAndConfirmTransaction := fun tx signer =>
       if String.eqb (fromPubkey tx) signer then inr "confirmed1"
       else inl "Signature verification failed" |}.

(** The record evaluation makes of the fee payer while it holds 2,000,000
    lamports, and the one it makes while it holds 8,000,000. *)
Definition topped : ReclaimableAccount :=
  {| base := Scenario.sponsored "Payer" 2000000 (Some Scenario.lastSeen);
     reason := ACCOUNT_EMPTY; estimatedRent := 2000000 |}.

Definition spent : ReclaimableAccount :=
  {| base := Scenario.sponsored "Payer" 8000000 (Some Scenario.lastSeen);
     reason := ACCOUNT_EMPTY; estimatedRent := 8000000 |}.

End Own.

(** ** Reclaim attempts *)

(** The lines of the log written by [logReclaimOperation]. *)
Definition isReclaimEntry (e : LogEntry) : bool :=
  match e with
  | LogReclaim _ _ _ _ _ => true
  | _ => false
  end.

Definition auditTrail (l : list LogEntry) : list LogEntry :=
  List.filter isReclaimEntry l.

(** The line an attempt on [account] leaves when it ends with [result]. *)
Definition auditEntry (account : ReclaimableAccount) (result : ReclaimResult)
  : LogEntry :=
  LogReclaim (address (base account)) (estimatedRent account)
    (success result) (signature result) (error result).

(** The transfer an attempt on [addr] submits when the ledger has answered
    [live]. *)
Definition sweep (this : RentReclaimer) (addr : string) (live : AccountInfo)
  : Transfer :=
  {| fromPubkey := addr; toPubkey := treasury this;
     transferLamports := info_lamports live |}.

(** Everything an attempt on [addr] needs to go through: a well-formed
    address, a funded account owned by the system program, and a transfer
    the network confirms with signature [sg]. *)
Definition accepted (host : Host) (this : RentReclaimer) (addr : string)
    (live : AccountInfo) (sg : string) : Prop :=
  PublicKey_valid host addr = true ∧
  getAccountInfo (connection this) addr = inr (Some live) ∧
  info_lamports live ≠ 0 ∧
  info_owner live = SystemProgram_programId ∧
  sendAndConfirmTransaction (connection this) (sweep this addr live)
    (feePayer this) = inr sg.

Definition sumReclaimed (results : list ReclaimResult) : Z :=
  foldr (fun r s => reclaimedAmount r + s) 0 results.

(** The running total once the amounts [results] report have been added to
    [start] one after the other, in the order of the attempts. *)
Definition addedInTurn (start : Z) (results : list ReclaimResult) : Z :=
  foldl (fun total r => total + reclaimedAmount r) start results.

Definition successes (results : list ReclaimResult) : nat :=
  length (List.filter success results).

(** ** A ledger with an account the system program does not own *)

Module Custody.

Definition tokenProgram : string :=
  "TokenkegQfeZyiNwAJbNbGKPFXCWuBvf9Ss623VQ5DA".

Definition vault : AccountInfo :=
  {| info_lamports := 2039280; info_owner := tokenProgram;
     info_executable := false; info_data := repeat Byte.x00 165 |}.

(** The transfer of the one account it holds is refused by the network when
    asked from ["Locked"], confirmed otherwise. *)
Definition ledger : Connection :=
  {| getAccountInfo := fun a =>
       if String.eqb a "Vault" then inr (Some vault)
       else if String.eqb a "Purse" then
         inr (Some (Scenario.systemAccount 1500000 []))
       else if String.eqb a "Locked" then
         inr (Some (Scenario.systemAccount 1500000 []))
       else inr None;
     getSignaturesForAddress := fun a limit => inr [];
     getParsedTransaction := fun s => inr None;
     sendAndConfirmTransaction := fun tx signer =>
       if String.eqb (fromPubkey tx) "Locked"
       then inl "Transaction simulation failed"
       else inr "confirmed2" |}.

Definition record (addr : string) (l : Z) : ReclaimableAccount :=
  {| base := Scenario.sponsored addr l None; reason := ACCOUNT_INACTIVE;
     estimatedRent := l |}.

End Custody.

(** ** The order and the content of what discovery returns *)

(** A list of addresses with every repetition after the first struck
    out. *)
Fixpoint firstOccurrences (l : list string) : list string :=
  match l with
  | [] => []
  | x :: rest => x :: filter (fun y => y ≠ x) (firstOccurrences rest)
  end.

(** What [fetchAccountInfo] answers for [addr]. *)
Definition fetched (host : Host) (c : Connection) (addr : string)
  : option AccountInfo :=
  match accountResponse host c addr with
  | inr i => i
  | inl _ => None
  end.

(** [sigInfo] is the first signature of the window whose transaction could
    be fetched and has [addr] among its account keys. *)
Definition firstSeenIn (c : Connection)
    (signatures : list ConfirmedSignatureInfo) (addr : string)
    (sigInfo : ConfirmedSignatureInfo) : Prop :=
  ∃ pre post keys,
    signatures = pre ++ sigInfo :: post ∧
    (addr ∉ parsedKeys c pre) ∧
    getParsedTransaction c (sig_signature sigInfo) = inr (Some keys) ∧
    addr ∈ keys.

(** ** What a stage leaves of the state *)

(** From [w] to [w'] nothing was transferred and neither running total
    moved; the log only grew, by lines that are not reclaim lines, and the
    clock was read at most [n] times. *)
Definition observes (n : nat) (w w' : World) : Prop :=
  confirmed w' = confirmed w ∧
  lifetimeReclaimed w' = lifetimeReclaimed w ∧
  lastScanTime w' = lastScanTime w ∧
  logs w `prefix_of` logs w' ∧
  auditTrail (logs w') = auditTrail (logs w) ∧
  (ticks w ≤ ticks w' ≤ ticks w + n)%nat.

(** * Properties *)

(** ** Running a [Promise] *)

#[local] Arguments Solana.hasRecentActivity : simpl never.
#[local] Arguments Solana.fetchAccountInfo : simpl never.

Ltac run :=
  repeat (progress (unfold mbind, promise_bind, await, try_catch, rpc,
                    resolve, throw, logger, now, newPublicKey, send,
                    addLifetimeReclaimed, setLastScanTime,
                    logReclaimOperation, logScanResults; cbn)).

Ltac split_if :=
  match goal with
  | |- context [if ?b then _ else _] => destruct b eqn:?
  end.

Lemma fetchAccountInfo_run host c addr w :
  Solana.fetchAccountInfo host c addr w =
  match accountResponse host c addr with
  | inr i => (inr i, w)
  | inl e =>
      (inr None,
       logged (LogError error_level
                 ("fetchAccountInfo failed for " +:+ addr) e) w)
  end.
Proof.
  unfold Solana.fetchAccountInfo, accountResponse. run.
  destruct (PublicKey_valid host addr); cbn; [|reflexivity].
  destruct (getAccountInfo c addr); reflexivity.
Qed.

Lemma hasRecentActivity_run host c addr days w :
  Solana.hasRecentActivity host c addr days w =
  match signatureResponse host c addr with
  | inl e =>
      (inr true,
       logged (LogError error_level
                 ("hasRecentActivity check failed for " +:+ addr) e) w)
  | inr [] => (inr false, w)
  | inr (s0 :: _) =>
      match blockTime s0 with
      | None => (inr true, w)
      | Some bt =>
          if bt =? 0 then (inr true, w)
          else (inr (Solana.lessThan
                       (Solana.daysSince (Date_now host (ticks w)) bt) days),
                ticked w)
      end
  end.
Proof.
  unfold Solana.hasRecentActivity, signatureResponse. run.
  destruct (PublicKey_valid host addr); cbn; [|reflexivity].
  destruct (getSignaturesForAddress c addr 1) as [e|[|s0 sigs]];
    cbn; try reflexivity.
  destruct (blockTime s0) as [bt|]; cbn; [|reflexivity].
  destruct (bt =? 0); reflexivity.
Qed.

(** [daysSince < daysThreshold] fails exactly when at least the threshold
    has elapsed. *)
Lemma Qltb_false x y : Solana.Qltb x y = false ↔ (y <= x)%Q.
Proof.
  unfold Solana.Qltb. rewrite negb_false_iff. apply Qle_bool_iff.
Qed.

Lemma Qltb_true x y : Solana.Qltb x y = true ↔ ¬ (y <= x)%Q.
Proof.
  rewrite <- Qltb_false. destruct (Solana.Qltb x y); split; congruence.
Qed.

Lemma lessThan_false x days : Solana.lessThan x days = false ↔ reached days x.
Proof.
  destruct days as [| | |q]; cbn; try (split; [tauto|reflexivity]).
  - split; [discriminate|intros []].
  - apply Qltb_false.
Qed.

Lemma lessThan_true x days :
  Solana.lessThan x days = true ↔ ¬ reached days x.
Proof.
  rewrite <- lessThan_false.
  destruct (Solana.lessThan x days); split; congruence.
Qed.

Lemma hasRecentActivity_returns host c addr days w :
  ∃ active w', Solana.hasRecentActivity host c addr days w = (inr active, w').
Proof.
  rewrite hasRecentActivity_run.
  destruct (signatureResponse host c addr) as [e|[|s0 sigs]]; eauto.
  destruct (blockTime s0) as [bt|]; eauto.
  destruct (bt =? 0); eauto.
Qed.

(** ** The loop body of [identifyReclaimableAccounts] *)

Section EvaluateBody.

Variable host : Host.
Variable this : RentReclaimer.

Lemma evaluateAccount_acc acct acc w :
  evaluateAccount host this acct acc w =
  (inr (acc ++ verdict host this acct w), afterAccount host this acct w).
Proof.
  unfold verdict, afterAccount, evaluateAccount.
  unfold mbind, promise_bind, await, try_catch.
  rewrite !fetchAccountInfo_run.
  destruct (accountResponse host (connection this) (address acct))
    as [e|[live|]]; cbn [Solana.isAccountClosed].
  all: repeat (split_if; run).
  all: rewrite ?app_nil_r; try reflexivity.
  destruct (hasRecentActivity_returns host (connection this) (address acct)
              (accountAgeThreshold (config this)) w) as (active & w' & ->).
  destruct active; cbn; rewrite ?app_nil_r; reflexivity.
Qed.

(** Rule A, the account being absent or empty of lamports. *)
Lemma verdict_closed acct i w :
  accountResponse host (connection this) (address acct) = inr i →
  Solana.isAccountClosed i = true →
  verdict host this acct w =
    (if lamports acct >=? minRentThreshold (config this) then [closedRecord acct] else []) ∧
  afterAccount host this acct w = w.
Proof.
  intros Hresp Hclosed.
  unfold verdict, afterAccount, evaluateAccount.
  unfold mbind, promise_bind, await, try_catch.
  rewrite !fetchAccountInfo_run, Hresp, Hclosed.
  destruct (lamports acct >=? _); split; reflexivity.
Qed.

(** Rule A again, the request for the account having failed:
    [fetchAccountInfo] answers [null]. *)
Lemma verdict_failed acct e w :
  accountResponse host (connection this) (address acct) = inl e →
  verdict host this acct w =
    (if lamports acct >=? minRentThreshold (config this) then [closedRecord acct] else []) ∧
  afterAccount host this acct w =
    logged (LogError error_level
              ("fetchAccountInfo failed for " +:+ address acct) e) w.
Proof.
  intros Hresp.
  unfold verdict, afterAccount, evaluateAccount.
  unfold mbind, promise_bind, await, try_catch.
  rewrite !fetchAccountInfo_run, Hresp. cbn.
  destruct (lamports acct >=? _); split; reflexivity.
Qed.

(** Rule B. *)
Lemma verdict_empty acct live w :
  accountResponse host (connection this) (address acct) = inr (Some live) →
  info_lamports live ≠ 0 →
  info_data live = [] →
  minRentThreshold (config this) ≤ info_lamports live →
  verdict host this acct w = [liveRecord acct ACCOUNT_EMPTY live] ∧
  afterAccount host this acct w = w.
Proof.
  intros Hresp Hnz Hdata Hmin.
  unfold verdict, afterAccount, evaluateAccount.
  unfold mbind, promise_bind, await, try_catch.
  rewrite !fetchAccountInfo_run, Hresp. cbn. rewrite Hdata. cbn.
  apply Z.eqb_neq in Hnz. rewrite Hnz.
  apply Z.geb_le in Hmin. rewrite Hmin.
  split; reflexivity.
Qed.

(** Below the threshold no rule applies to a live account. *)
Lemma verdict_low acct live w :
  accountResponse host (connection this) (address acct) = inr (Some live) →
  info_lamports live ≠ 0 →
  info_lamports live < minRentThreshold (config this) →
  verdict host this acct w = [] ∧ afterAccount host this acct w = w.
Proof.
  intros Hresp Hnz Hmin.
  unfold verdict, afterAccount, evaluateAccount.
  unfold mbind, promise_bind, await, try_catch.
  rewrite !fetchAccountInfo_run, Hresp. cbn.
  apply Z.eqb_neq in Hnz. rewrite Hnz.
  assert ((info_lamports live >=? minRentThreshold (config this)) = false) as Hlow.
  { rewrite Z.geb_leb. apply Z.leb_gt. exact Hmin. }
  rewrite Hlow, andb_false_r. split; reflexivity.
Qed.

(** Rule C: the verdict is the answer of [hasRecentActivity]. *)
Lemma verdict_checked acct live active w w' :
  accountResponse host (connection this) (address acct) = inr (Some live) →
  info_lamports live ≠ 0 →
  info_data live ≠ [] →
  minRentThreshold (config this) ≤ info_lamports live →
  Solana.hasRecentActivity host (connection this) (address acct) (accountAgeThreshold (config this)) w =
    (inr active, w') →
  verdict host this acct w =
    (if active then [] else [liveRecord acct ACCOUNT_INACTIVE live]) ∧
  afterAccount host this acct w = w'.
Proof.
  intros Hresp Hnz Hdata Hmin Hact.
  unfold verdict, afterAccount, evaluateAccount.
  unfold mbind, promise_bind, await, try_catch.
  rewrite !fetchAccountInfo_run, Hresp. cbn.
  apply Z.eqb_neq in Hnz. rewrite Hnz.
  apply Z.geb_le in Hmin. rewrite Hmin.
  destruct (info_data live) as [|b bs]; [done|]. cbn.
  rewrite Hact. destruct active; split; reflexivity.
Qed.

End EvaluateBody.

(** ** The loop of [identifyReclaimableAccounts] *)

Section EvaluateLoop.

Variable host : Host.
Variable this : RentReclaimer.

Lemma evaluateAll_run accounts acc w :
  evaluateAll host this accounts acc w =
  (inr (acc ++ collected host this accounts w), afterAll host this accounts w).
Proof.
  revert acc w. induction accounts as [|acct rest IH]; intros acc w; cbn.
  - now rewrite app_nil_r.
  - unfold mbind, promise_bind, await.
    rewrite evaluateAccount_acc, IH, <- app_assoc. reflexivity.
Qed.

Lemma collected_app pre post w :
  collected host this (pre ++ post) w =
  collected host this pre w ++
  collected host this post (afterAll host this pre w).
Proof.
  revert w. induction pre as [|acct pre IH]; intros w; cbn; [reflexivity|].
  now rewrite IH, app_assoc.
Qed.

Lemma afterAll_app pre post w :
  afterAll host this (pre ++ post) w =
  afterAll host this post (afterAll host this pre w).
Proof.
  revert w. induction pre as [|acct pre IH]; intros w; cbn; auto.
Qed.

Lemma identifyReclaimableAccounts_run accounts w :
  identifyReclaimableAccounts host this accounts w =
  let rs := collected host this accounts (evaluationStarted w) in
  (inr rs,
   logged (LogAmount info
             ("Identified " +:+ pretty (length rs) +:+ " reclaimable accounts")
             (sumEstimated rs))
     (afterAll host this accounts (evaluationStarted w))).
Proof.
  unfold identifyReclaimableAccounts, mbind, promise_bind, await.
  cbn. rewrite evaluateAll_run. reflexivity.
Qed.

(** The list evaluation returns; it always returns one. *)
Lemma identifyReclaimableAccounts_returns accounts w :
  (identifyReclaimableAccounts host this accounts w).1 =
  inr (collected host this accounts (evaluationStarted w)).
Proof. now rewrite identifyReclaimableAccounts_run. Qed.

(** Every record pushed comes from the verdict on one of the accounts, in
    some state. *)
Lemma collected_elem r accounts w :
  r ∈ collected host this accounts w →
  ∃ acct w', acct ∈ accounts ∧ r ∈ verdict host this acct w'.
Proof.
  revert w. induction accounts as [|acct rest IH]; intros w; cbn.
  - intros H. inversion H.
  - rewrite elem_of_app. intros [H|H].
    + exists acct, w. split; [left|exact H].
    + destruct (IH _ H) as (a & w' & Ha & Hr).
      exists a, w'. split; [now right|exact Hr].
Qed.

End EvaluateLoop.

(** The body refines [classify]. *)
Lemma verdict_classify host this acct w :
  verdict host this acct w =
  classify (config this) acct
    (accountResponse host (connection this) (address acct))
    (signatureResponse host (connection this) (address acct))
    (Date_now host (ticks w)).
Proof.
  unfold verdict, evaluateAccount, classify.
  unfold mbind, promise_bind, await, try_catch.
  rewrite !fetchAccountInfo_run.
  destruct (accountResponse host (connection this) (address acct))
    as [e|[live|]]; cbn [Solana.isAccountClosed].
  all: repeat (split_if; run); try reflexivity; try discriminate.
  all: rewrite hasRecentActivity_run.
  all: destruct (signatureResponse host (connection this) (address acct))
         as [e|[|s0 sigs]]; try reflexivity.
  all: destruct (blockTime s0) as [bt|]; try reflexivity.
  all: destruct (bt =? 0); try reflexivity.
  all: cbn; destruct (Solana.lessThan _ _); reflexivity.
Qed.

(** ** Evaluation: rule A *)

(** C5. An account whose snapshot at evaluation time is absent, or present
    with zero lamports, is pushed under rule A with the balance recorded at
    discovery as its estimate exactly when that balance reaches
    [minRentThreshold], and is left out otherwise; this at any place of any
    input list, the check leaving the state as it found it. *)
Theorem evaluate_closed_account host this pre acct post w i :
  accountResponse host (connection this) (address acct) = inr i →
  (i = None ∨ ∃ a, i = Some a ∧ info_lamports a = 0) →
  (identifyReclaimableAccounts host this (pre ++ acct :: post) w).1 =
  inr (collected host this pre (evaluationStarted w) ++
       (if decide (minRentThreshold (config this) ≤ lamports acct)
        then [{| base := acct; reason := ACCOUNT_CLOSED;
                 estimatedRent := lamports acct |}]
        else []) ++
       collected host this post
         (afterAll host this pre (evaluationStarted w))).
Proof.
  intros Hresp Hgone.
  assert (Solana.isAccountClosed i = true) as Hclosed.
  { destruct Hgone as [->|(a & -> & Ha)]; cbn; [reflexivity|].
    now apply Z.eqb_eq. }
  rewrite identifyReclaimableAccounts_returns, collected_app. cbn.
  destruct (verdict_closed host this acct i
              (afterAll host this pre (evaluationStarted w)) Hresp Hclosed)
    as [-> ->].
  do 3 f_equal.
  destruct (decide _) as [Hle|Hlt].
  - apply Z.geb_le in Hle. now rewrite Hle.
  - rewrite Z.geb_leb. apply Z.leb_nle in Hlt. now rewrite Hlt.
Qed.

(** Scenario 1: a closed account last seen with 2,000,000 lamports, under a
    threshold of 1,000,000. *)
Lemma evaluate_closed_account_witness :
  accountResponse Scenario.tenDaysLater Scenario.ledger "Gone" = inr None ∧
  (identifyReclaimableAccounts Scenario.tenDaysLater
     (Scenario.reclaimer Scenario.ledger 1000000)
     [Scenario.sponsored "Gone" 2000000 None] Scenario.world0).1 =
  inr [{| base := Scenario.sponsored "Gone" 2000000 None;
          reason := ACCOUNT_CLOSED; estimatedRent := 2000000 |}].
Proof.
  split; [reflexivity|].
  exact (evaluate_closed_account Scenario.tenDaysLater
           (Scenario.reclaimer Scenario.ledger 1000000) []
           (Scenario.sponsored "Gone" 2000000 None) [] Scenario.world0 None
           eq_refl (or_introl eq_refl)).
Defined.

(** ** Evaluation: rule C *)

(** C2, as the code has it. Under a configuration whose
    [accountAgeThreshold] is a finite number, an account that exists with a
    non-zero balance of at least [minRentThreshold] and a non-empty payload
    is pushed under rule C exactly when its latest signature says it is
    inactive at the reading of the clock its check takes: no signature at
    all, or a non-zero timestamp at least [accountAgeThreshold] days old. A
    missing or zero timestamp and a failed lookup leave it out. *)
Theorem evaluate_inactive_account host this pre acct post w live days :
  accountAgeThreshold (config this) = Num days →
  accountResponse host (connection this) (address acct) = inr (Some live) →
  info_lamports live ≠ 0 →
  info_data live ≠ [] →
  minRentThreshold (config this) ≤ info_lamports live →
  let w1 := afterAll host this pre (evaluationStarted w) in
  let inactive :=
    saysInactive (signatureResponse host (connection this) (address acct))
      (Date_now host (ticks w1)) (Num days) in
  ∃ v,
    (identifyReclaimableAccounts host this (pre ++ acct :: post) w).1 =
    inr (collected host this pre (evaluationStarted w) ++ v ++
         collected host this post (afterAccount host this acct w1)) ∧
    (inactive →
     v = [{| base := withLamports acct (info_lamports live);
             reason := ACCOUNT_INACTIVE;
             estimatedRent := info_lamports live |}]) ∧
    (¬ inactive → v = []).
Proof.
  intros Hdays Hresp Hnz Hdata Hmin w1 inactive.
  exists (verdict host this acct w1). split.
  { rewrite identifyReclaimableAccounts_returns, collected_app.
    reflexivity. }
  destruct (hasRecentActivity_returns host (connection this) (address acct)
              (accountAgeThreshold (config this)) w1) as (active & w' & Hact).
  destruct (verdict_checked host this acct live active w1 w'
              Hresp Hnz Hdata Hmin Hact) as [-> _].
  rewrite hasRecentActivity_run, Hdays in Hact.
  subst inactive. unfold saysInactive.
  destruct (signatureResponse host (connection this) (address acct))
    as [e|[|s0 sigs]].
  - injection Hact as <- _. split; [intros []|reflexivity].
  - injection Hact as <- _. split; [reflexivity|intros H; now destruct H].
  - destruct (blockTime s0) as [bt|].
    + destruct (bt =? 0) eqn:Hbt.
      * injection Hact as <- _. apply Z.eqb_eq in Hbt.
        split; [intros [H _]; contradiction|reflexivity].
      * injection Hact as <- _. apply Z.eqb_neq in Hbt.
        cbn [reached].
        destruct (Solana.Qltb _ _) eqn:Hlt.
        -- apply Qltb_true in Hlt.
           split; [intros [_ H]; contradiction|reflexivity].
        -- apply Qltb_false in Hlt.
           split; [reflexivity|intros H; destruct H; now split].
    + injection Hact as <- _. split; [intros []|reflexivity].
Qed.

(** Scenario 3: 3,000,000 lamports, 32 bytes of payload, last signature ten
    days old, threshold of seven days. *)
Lemma evaluate_inactive_account_witness :
  ∃ v,
    (identifyReclaimableAccounts Scenario.tenDaysLater
       (Scenario.reclaimer Scenario.ledger 1000000)
       [Scenario.sponsored "Idle" 3000000 None] Scenario.world0).1 =
    inr (v ++ []) ∧
    v = [{| base := Scenario.sponsored "Idle" 3000000 None;
            reason := ACCOUNT_INACTIVE; estimatedRent := 3000000 |}].
Proof.
  destruct (evaluate_inactive_account Scenario.tenDaysLater
              (Scenario.reclaimer Scenario.ledger 1000000) []
              (Scenario.sponsored "Idle" 3000000 None) [] Scenario.world0
              (Scenario.systemAccount 3000000 Scenario.payload) 7)
    as (v & Hrun & Hyes & _).
  - reflexivity.
  - reflexivity.
  - cbn. lia.
  - discriminate.
  - cbn. lia.
  - exists v. split; [exact Hrun|].
    apply Hyes. cbn. split; [unfold Scenario.lastSeen; lia|].
    vm_compute. discriminate.
Defined.

(** C2 as stated fails twice. An account whose latest signature
    carries the timestamp 0 is centuries past the threshold and yet left
    out, and an account that exists with zero lamports under a threshold of
    zero falls under rule A whatever its signatures. *)
Lemma evaluate_inactive_account_counterexample :
  accountResponse (Scenario.frozenAt (Scenario.lastSeen * 1000))
    Scenario.ledger "Epoch" =
  inr (Some (Scenario.systemAccount 3000000 Scenario.payload)) ∧
  signatureResponse (Scenario.frozenAt (Scenario.lastSeen * 1000))
    Scenario.ledger "Epoch" =
  inr [{| sig_signature := "sig0"; blockTime := Some 0 |}] ∧
  (7 <= Solana.daysSince (Scenario.lastSeen * 1000) 0)%Q ∧
  (identifyReclaimableAccounts (Scenario.frozenAt (Scenario.lastSeen * 1000))
     (Scenario.reclaimer Scenario.ledger 1000000)
     [Scenario.sponsored "Epoch" 3000000 None] Scenario.world0).1 = inr [] ∧
  accountResponse Scenario.tenDaysLater Scenario.ledger "Drained" =
  inr (Some (Scenario.systemAccount 0 Scenario.payload)) ∧
  signatureResponse Scenario.tenDaysLater Scenario.ledger "Drained" = inr [] ∧
  (identifyReclaimableAccounts Scenario.tenDaysLater
     (Scenario.reclaimer Scenario.ledger 0)
     [Scenario.sponsored "Drained" 0 None] Scenario.world0).1 =
  inr [{| base := Scenario.sponsored "Drained" 0 None;
          reason := ACCOUNT_CLOSED; estimatedRent := 0 |}].
Proof.
  do 2 (split; [reflexivity|]).
  split; [vm_compute; discriminate|].
  repeat split; vm_compute; reflexivity.
Qed.

(** ** Evaluation: what every record satisfies *)

Lemma classify_shape cfg acct ar sr t r :
  r ∈ classify cfg acct ar sr t →
  (r = closedRecord acct ∧ minRentThreshold cfg ≤ lamports acct) ∨
  (∃ live, ar = inr (Some live) ∧ info_lamports live ≠ 0 ∧
           minRentThreshold cfg ≤ info_lamports live ∧
           (r = liveRecord acct ACCOUNT_EMPTY live ∨
            r = liveRecord acct ACCOUNT_INACTIVE live)).
Proof.
  unfold classify. intros H.
  repeat case_match; subst;
    try (apply elem_of_nil in H; contradiction);
    apply list_elem_of_singleton in H; subst r.
  all: try (left; split; [reflexivity|now apply Z.geb_le]).
  all: right; eexists; split; [reflexivity|].
  all: repeat match goal with
         | H : (_ =? _) = false |- _ => apply Z.eqb_neq in H
         | H : (_ >=? _) = true |- _ => apply Z.geb_le in H
         | H : _ && _ = true |- _ => apply andb_prop in H as [? ?]
         end.
  all: repeat split; auto.
Qed.

Lemma accountResponse_inr host c addr i :
  accountResponse host c addr = inr i → getAccountInfo c addr = inr i.
Proof.
  unfold accountResponse. destruct (PublicKey_valid host addr); [auto|].
  discriminate.
Qed.

(** C7, as the code has it. Evaluation returns, and the estimate of every
    record it returns reaches [minRentThreshold]; the estimate is positive
    whenever the threshold is. *)
Theorem evaluate_estimate_bounds host this accounts w :
  ∃ rs, (identifyReclaimableAccounts host this accounts w).1 = inr rs ∧
    ∀ r, r ∈ rs →
      minRentThreshold (config this) ≤ estimatedRent r ∧
      (0 < minRentThreshold (config this) → 0 < estimatedRent r).
Proof.
  eexists. split; [apply identifyReclaimableAccounts_returns|].
  intros r Hr.
  apply collected_elem in Hr as (acct & w' & _ & Hr).
  rewrite verdict_classify in Hr.
  apply classify_shape in Hr
    as [[-> Hmin]|(live & _ & _ & Hmin & [->| ->])]; cbn; lia.
Qed.

Lemma evaluate_estimate_bounds_witness :
  ∃ rs,
    (identifyReclaimableAccounts Scenario.tenDaysLater
       (Scenario.reclaimer Scenario.ledger 1000000)
       [Scenario.sponsored "Gone" 2000000 None;
        Scenario.sponsored "Idle" 1 None] Scenario.world0).1 = inr rs ∧
    Scenario.sponsored "Idle" 3000000 None ∈ base <$> rs ∧
    Forall (fun r => 1000000 ≤ estimatedRent r ∧ 0 < estimatedRent r) rs.
Proof.
  destruct (evaluate_estimate_bounds Scenario.tenDaysLater
              (Scenario.reclaimer Scenario.ledger 1000000)
              [Scenario.sponsored "Gone" 2000000 None;
               Scenario.sponsored "Idle" 1 None] Scenario.world0)
    as (rs & Hrun & Hall).
  exists rs. split; [exact Hrun|].
  split.
  - vm_compute in Hrun. injection Hrun as <-. vm_compute.
    apply list_elem_of_In. right. left. reflexivity.
  - apply Forall_forall. intros r Hr.
    destruct (Hall r Hr) as [Hmin Hpos]. split; [exact Hmin|].
    apply Hpos. reflexivity.
Defined.

(** C7 as stated fails under a threshold of zero: an account
    that discovery recorded as gone, with balance 0, is returned with an
    estimate of 0. *)
Lemma evaluate_estimate_bounds_counterexample :
  (identifyReclaimableAccounts Scenario.tenDaysLater
     (Scenario.reclaimer Scenario.ledger 0)
     [Scenario.sponsored "Gone" 0 None] Scenario.world0).1 =
  inr [{| base := Scenario.sponsored "Gone" 0 None;
          reason := ACCOUNT_CLOSED; estimatedRent := 0 |}] ∧
  ¬ (0 < estimatedRent
           {| base := Scenario.sponsored "Gone" 0 None;
              reason := ACCOUNT_CLOSED; estimatedRent := 0 |}).
Proof. split; [vm_compute; reflexivity|cbn; lia]. Qed.

(** C9. In every record evaluation returns the [lamports] field is the
    estimate. Under rule A both are the balance recorded at discovery, the
    input account being copied as it is; under rules B and C both are the
    balance the ledger has just answered, which replaces the one recorded
    at discovery. *)
Theorem evaluate_lamports_is_estimate host this accounts w :
  ∃ rs, (identifyReclaimableAccounts host this accounts w).1 = inr rs ∧
    ∀ r, r ∈ rs →
      lamports (base r) = estimatedRent r ∧
      ∃ acct, acct ∈ accounts ∧
        match reason r with
        | ACCOUNT_CLOSED => base r = acct ∧ estimatedRent r = lamports acct
        | ACCOUNT_EMPTY | ACCOUNT_INACTIVE =>
            ∃ live,
              getAccountInfo (connection this) (address acct) =
                inr (Some live) ∧
              base r = withLamports acct (info_lamports live) ∧
              estimatedRent r = info_lamports live
        end.
Proof.
  eexists. split; [apply identifyReclaimableAccounts_returns|].
  intros r Hr.
  apply collected_elem in Hr as (acct & w' & Hin & Hr).
  rewrite verdict_classify in Hr.
  apply classify_shape in Hr
    as [[-> _]|(live & Hresp & _ & _ & [->| ->])]; cbn.
  - split; [reflexivity|]. exists acct. auto.
  - split; [reflexivity|]. exists acct. split; [exact Hin|].
    exists live. apply accountResponse_inr in Hresp. auto.
  - split; [reflexivity|]. exists acct. split; [exact Hin|].
    exists live. apply accountResponse_inr in Hresp. auto.
Qed.

(** The ledger holds 3,000,000 lamports on an account recorded with 1 at
    discovery: the record carries 3,000,000 twice. *)
Lemma evaluate_lamports_is_estimate_witness :
  ∃ rs,
    (identifyReclaimableAccounts Scenario.tenDaysLater
       (Scenario.reclaimer Scenario.ledger 1000000)
       [Scenario.sponsored "Idle" 1 None] Scenario.world0).1 = inr rs ∧
    rs = [{| base := Scenario.sponsored "Idle" 3000000 None;
             reason := ACCOUNT_INACTIVE; estimatedRent := 3000000 |}] ∧
    Forall (fun r => lamports (base r) = estimatedRent r) rs.
Proof.
  destruct (evaluate_lamports_is_estimate Scenario.tenDaysLater
              (Scenario.reclaimer Scenario.ledger 1000000)
              [Scenario.sponsored "Idle" 1 None] Scenario.world0)
    as (rs & Hrun & Hall).
  exists rs. split; [exact Hrun|].
  split.
  - vm_compute in Hrun. injection Hrun as <-. reflexivity.
  - apply Forall_forall. intros r Hr. apply (Hall r Hr).
Defined.

(** ** Evaluation: what the result depends on *)

(** The body reads [address] and [lamports] of the account and copies the
    rest: two accounts that differ in [lastActivity] alone get the same
    verdict up to that field, and leave the same state. *)
Lemma evaluateAccount_lastActivity host this addr l o e d seen1 seen2 w :
  let acct1 := {| address := addr; lamports := l; owner := o;
                  executable := e; dataLength := d; lastActivity := seen1 |} in
  let acct2 := {| address := addr; lamports := l; owner := o;
                  executable := e; dataLength := d; lastActivity := seen2 |} in
  selection <$> verdict host this acct1 w =
  selection <$> verdict host this acct2 w ∧
  afterAccount host this acct1 w = afterAccount host this acct2 w.
Proof.
  intros acct1 acct2.
  unfold verdict, afterAccount, evaluateAccount.
  unfold mbind, promise_bind, await, try_catch.
  rewrite !fetchAccountInfo_run. cbn [address lamports acct1 acct2].
  destruct (accountResponse host (connection this) addr)
    as [err|[live|]]; cbn [Solana.isAccountClosed].
  all: repeat (split_if; run); try (split; reflexivity).
  destruct (hasRecentActivity_returns host (connection this) addr
              (accountAgeThreshold (config this)) w) as (active & w' & ->).
  destruct active; split; reflexivity.
Qed.

Lemma collected_lastActivity host this accounts1 accounts2 w :
  withoutActivity <$> accounts1 = withoutActivity <$> accounts2 →
  selection <$> collected host this accounts1 w =
  selection <$> collected host this accounts2 w.
Proof.
  revert accounts2 w.
  induction accounts1 as [|a1 rest1 IH]; intros [|a2 rest2] w Heq;
    try discriminate; [reflexivity|].
  destruct a1 as [addr l o e d seen1], a2 as [addr2 l2 o2 e2 d2 seen2].
  cbn in Heq. injection Heq as <- <- <- <- <- Hrest.
  cbn [collected]. rewrite !fmap_app.
  destruct (evaluateAccount_lastActivity host this addr l o e d seen1 seen2 w)
    as [-> ->].
  f_equal. now apply IH.
Qed.

(** C10. Two input lists that agree except on the [lastActivity] of their
    accounts, evaluated against the same ledger from the same state, yield
    the same accounts with the same reasons and the same estimates; the
    results differ at most in the [lastActivity] they copy. *)
Theorem evaluate_ignores_lastActivity host this accounts1 accounts2 w :
  withoutActivity <$> accounts1 = withoutActivity <$> accounts2 →
  ∃ rs1 rs2,
    (identifyReclaimableAccounts host this accounts1 w).1 = inr rs1 ∧
    (identifyReclaimableAccounts host this accounts2 w).1 = inr rs2 ∧
    selection <$> rs1 = selection <$> rs2.
Proof.
  intros Heq. do 2 eexists.
  split; [apply identifyReclaimableAccounts_returns|].
  split; [apply identifyReclaimableAccounts_returns|].
  now apply collected_lastActivity.
Qed.

(** An account recorded as seen ten days ago, or as seen a second ago, is
    judged on the signature the ledger answers. *)
Lemma evaluate_ignores_lastActivity_witness :
  ∃ rs1 rs2,
    (identifyReclaimableAccounts Scenario.tenDaysLater
       (Scenario.reclaimer Scenario.ledger 1000000)
       [Scenario.sponsored "Idle" 3000000 (Some Scenario.lastSeen)]
       Scenario.world0).1 = inr rs1 ∧
    (identifyReclaimableAccounts Scenario.tenDaysLater
       (Scenario.reclaimer Scenario.ledger 1000000)
       [Scenario.sponsored "Idle" 3000000
          (Some (Scenario.lastSeen + 10 * 86400 - 1))]
       Scenario.world0).1 = inr rs2 ∧
    selection <$> rs1 = selection <$> rs2 ∧
    length rs1 = 1%nat.
Proof.
  destruct (evaluate_ignores_lastActivity Scenario.tenDaysLater
              (Scenario.reclaimer Scenario.ledger 1000000)
              [Scenario.sponsored "Idle" 3000000 (Some Scenario.lastSeen)]
              [Scenario.sponsored "Idle" 3000000
                 (Some (Scenario.lastSeen + 10 * 86400 - 1))]
              Scenario.world0 eq_refl)
    as (rs1 & rs2 & H1 & H2 & Hsame).
  exists rs1, rs2. repeat split; try assumption.
  vm_compute in H1. injection H1 as <-. reflexivity.
Defined.

(** Under a clock that stands still the records pushed do not depend on
    the state the loop starts in. *)
Lemma collected_frozen host this accounts w w' :
  (∀ n m, Date_now host n = Date_now host m) →
  collected host this accounts w = collected host this accounts w'.
Proof.
  intros Hfrozen. revert w w'.
  induction accounts as [|acct rest IH]; intros w w'; cbn; [reflexivity|].
  rewrite !verdict_classify, (Hfrozen (ticks w) (ticks w')).
  f_equal. apply IH.
Qed.

(** C8, as the code has it. Evaluation does not write to the ledger, but
    rule C reads the clock: run a second time on the same list, in the
    state the first run left, against the same ledger and with the clock
    reading unchanged, it returns the list it returned the first time. *)
Theorem evaluate_twice host this accounts w :
  (∀ n m, Date_now host n = Date_now host m) →
  ∃ rs w1,
    identifyReclaimableAccounts host this accounts w = (inr rs, w1) ∧
    (identifyReclaimableAccounts host this accounts w1).1 = inr rs.
Proof.
  intros Hfrozen. do 2 eexists.
  split; [apply identifyReclaimableAccounts_run|].
  rewrite identifyReclaimableAccounts_returns.
  f_equal. now apply collected_frozen.
Qed.

Lemma evaluate_twice_witness :
  ∃ rs w1,
    identifyReclaimableAccounts Scenario.tenDaysLater
      (Scenario.reclaimer Scenario.ledger 1000000)
      [Scenario.sponsored "Gone" 2000000 None;
       Scenario.sponsored "Idle" 3000000 None] Scenario.world0 = (inr rs, w1) ∧
    (identifyReclaimableAccounts Scenario.tenDaysLater
       (Scenario.reclaimer Scenario.ledger 1000000)
       [Scenario.sponsored "Gone" 2000000 None;
        Scenario.sponsored "Idle" 3000000 None] w1).1 = inr rs ∧
    length rs = 2%nat.
Proof.
  destruct (evaluate_twice Scenario.tenDaysLater
              (Scenario.reclaimer Scenario.ledger 1000000)
              [Scenario.sponsored "Gone" 2000000 None;
               Scenario.sponsored "Idle" 3000000 None] Scenario.world0)
    as (rs & w1 & H1 & H2).
  - reflexivity.
  - exists rs, w1. repeat split; try assumption.
    vm_compute in H1. injection H1 as <- _. reflexivity.
Defined.

(** C8 as stated fails when time passes between the two runs.
    The ledger answers the same; the first run reads the clock six days
    after the last signature of the account and leaves it out, the second
    reads it eight days after and returns it. *)
Lemma evaluate_twice_counterexample :
  let this := Scenario.reclaimer Scenario.ledger 1000000 in
  let accounts := [Scenario.sponsored "Idle" 3000000 None] in
  let first := identifyReclaimableAccounts Scenario.running this accounts
                 Scenario.world0 in
  let second := identifyReclaimableAccounts Scenario.running this accounts
                  first.2 in
  first.1 = inr [] ∧
  second.1 = inr [{| base := Scenario.sponsored "Idle" 3000000 None;
                     reason := ACCOUNT_INACTIVE; estimatedRent := 3000000 |}] ∧
  first.1 ≠ second.1.
Proof.
  cbv zeta. split; [vm_compute; reflexivity|].
  split; [vm_compute; reflexivity|].
  vm_compute. discriminate.
Qed.

(** ** Reclaim *)

#[local] Arguments Solana.closeAccountAndReclaimRent : simpl never.

Lemma closeAccountAndReclaimRent_run c payer acct dest w :
  Solana.closeAccountAndReclaimRent c payer acct dest w =
  let failed msg :=
    {| Solana.close_success := false; Solana.close_signature := None;
       Solana.close_error := Some msg |} in
  let thrown msg :=
    (inr (failed msg),
     logged (LogError error_level
               ("closeAccountAndReclaimRent failed for " +:+ acct) msg) w) in
  match getAccountInfo c acct with
  | inl e => thrown e
  | inr None =>
      (inr (failed "Account does not exist or is already closed."), w)
  | inr (Some a) =>
      if info_lamports a =? 0 then
        (inr (failed "Account already has zero balance."), w)
      else if negb (String.eqb (info_owner a) SystemProgram_programId) then
        (inr (failed ("Account is owned by " +:+ info_owner a +:+
                      " — needs a program-specific close instruction.")), w)
      else
        let tx := {| fromPubkey := acct; toPubkey := dest;
                     transferLamports := info_lamports a |} in
        match sendAndConfirmTransaction c tx payer with
        | inl e => thrown e
        | inr sg =>
            (inr {| Solana.close_success := true;
                    Solana.close_signature := Some sg;
                    Solana.close_error := None |},
             logged (LogAmount info ("Rent reclaimed: " +:+ acct)
                       (info_lamports a))
               (transferred tx w))
        end
  end.
Proof.
  unfold Solana.closeAccountAndReclaimRent. run.
  destruct (getAccountInfo c acct) as [e|[a|]]; cbn; try reflexivity.
  destruct (info_lamports a =? 0); cbn; [reflexivity|].
  destruct (negb _); cbn; [reflexivity|].
  destruct (sendAndConfirmTransaction c _ payer); reflexivity.
Qed.

(** What an attempt reports and what it does. It always returns a
    result. A failure reports 0, leaves the running total alone and
    confirms no transfer. A success reports the estimate carried by the
    record and adds it to the running total, while the transfer it has
    confirmed moves the balance the ledger answered just before. *)
Lemma reclaimRent_outcome host this account w :
  ∃ result w',
    reclaimRent host this account w = (inr result, w') ∧
    (success result = false →
     reclaimedAmount result = 0 ∧
     lifetimeReclaimed w' = lifetimeReclaimed w ∧
     confirmed w' = confirmed w) ∧
    (success result = true →
     reclaimedAmount result = estimatedRent account ∧
     lifetimeReclaimed w' = lifetimeReclaimed w + estimatedRent account ∧
     ∃ live,
       getAccountInfo (connection this) (address (base account)) =
         inr (Some live) ∧
       confirmed w' =
         confirmed w ++
         [{| fromPubkey := address (base account);
             toPubkey := treasury this;
             transferLamports := info_lamports live |}]).
Proof.
  unfold reclaimRent. run.
  destruct (PublicKey_valid host (address (base account))); run.
  2: { do 2 eexists. split; [reflexivity|]. cbn. split; [auto|discriminate]. }
  rewrite closeAccountAndReclaimRent_run. cbv zeta.
  destruct (getAccountInfo (connection this) (address (base account)))
    as [e|[a|]]; run.
  1, 3: do 2 eexists; (split; [reflexivity|]); cbn;
        (split; [auto|discriminate]).
  destruct (info_lamports a =? 0); run.
  { do 2 eexists. split; [reflexivity|]. cbn. split; [auto|discriminate]. }
  destruct (negb _); run.
  { do 2 eexists. split; [reflexivity|]. cbn. split; [auto|discriminate]. }
  destruct (sendAndConfirmTransaction _ _ _); run.
  { do 2 eexists. split; [reflexivity|]. cbn. split; [auto|discriminate]. }
  do 2 eexists. split; [reflexivity|]. cbn. split; [discriminate|].
  intros _. repeat split. exists a. auto.
Qed.

(** C1, where the code departs from it. The fee payer's own account is
    discovered and classified while it holds 2,000,000 lamports; by the
    time of the attempt it holds 5,000,000. On a ledger that refuses every
    transfer its source has not signed, the attempt succeeds and the
    transfer it confirms moves the 5,000,000 lamports, yet the result
    reports the 2,000,000 of the estimate. *)
Theorem reclaimRent_reports_estimate :
  let host := Scenario.tenDaysLater in
  let earlier := Scenario.reclaimer (Own.ledger 2000000) 1000000 in
  let this := Scenario.reclaimer (Own.ledger 5000000) 1000000 in
  let scan := getSponsoredAccounts host earlier Scenario.world0 in
  let run := reclaimRent host this Own.topped Scenario.world0 in
  (∀ tx signer,
     fromPubkey tx ≠ signer →
     sendAndConfirmTransaction (connection this) tx signer =
       inl "Signature verification failed") ∧
  (∃ scanned rest,
     scan.1 = inr scanned ∧
     (identifyReclaimableAccounts host earlier scanned scan.2).1 =
       inr (Own.topped :: rest)) ∧
  feePayer this = address (base Own.topped) ∧
  getAccountInfo (connection this) "Payer" =
    inr (Some (Scenario.systemAccount 5000000 [])) ∧
  run.1 =
    inr {| success := true; accountAddress := "Payer";
           reclaimedAmount := 2000000; signature := Some "confirmed1";
           error := None;
           timestamp := Scenario.lastSeen * 1000 + 10 * Scenario.day |} ∧
  confirmed run.2 =
    [{| fromPubkey := "Payer"; toPubkey := "Treasury";
        transferLamports := 5000000 |}].
Proof.
  cbv zeta. split.
  { intros tx signer Hne. cbn.
    destruct (String.eqb_spec (fromPubkey tx) signer); [contradiction|].
    reflexivity. }
  split.
  { do 2 eexists. split; [vm_compute; reflexivity|].
    vm_compute. reflexivity. }
  repeat split; vm_compute; reflexivity.
Qed.

(** C4, where the code departs from it. The fee payer's own account is
    discovered and classified while it holds 8,000,000 lamports; by the
    time of the attempt the fees it has paid have left it 5,000,000. On a
    ledger that refuses every transfer its source has not signed, the
    attempt succeeds and moves 5,000,000 lamports to the treasury, yet the
    running total, and with it [totalRentReclaimed], grows by the 8,000,000
    of the estimate. *)
Theorem reclaimRent_counts_estimate :
  let host := Scenario.tenDaysLater in
  let earlier := Scenario.reclaimer (Own.ledger 8000000) 1000000 in
  let this := Scenario.reclaimer (Own.ledger 5000000) 1000000 in
  let scan := getSponsoredAccounts host earlier Scenario.world0 in
  let run := reclaimRent host this Own.spent Scenario.world0 in
  (∀ tx signer,
     fromPubkey tx ≠ signer →
     sendAndConfirmTransaction (connection this) tx signer =
       inl "Signature verification failed") ∧
  (∃ scanned rest,
     scan.1 = inr scanned ∧
     (identifyReclaimableAccounts host earlier scanned scan.2).1 =
       inr (Own.spent :: rest)) ∧
  feePayer this = address (base Own.spent) ∧
  match run.1 with inr result => success result = true | inl _ => False end ∧
  confirmed run.2 =
    [{| fromPubkey := "Payer"; toPubkey := "Treasury";
        transferLamports := 5000000 |}] ∧
  lifetimeReclaimed run.2 = lifetimeReclaimed Scenario.world0 + 8000000 ∧
  totalRentReclaimed (getStats run.2 [] []) = 8000000.
Proof.
  cbv zeta. split.
  { intros tx signer Hne. cbn.
    destruct (String.eqb_spec (fromPubkey tx) signer); [contradiction|].
    reflexivity. }
  split.
  { do 2 eexists. split; [vm_compute; reflexivity|].
    vm_compute. reflexivity. }
  repeat split; vm_compute; reflexivity.
Qed.

(** ** Discovery *)

Lemma fetchAccountInfo_cases host c addr w :
  ∃ i ex w1,
    Solana.fetchAccountInfo host c addr w = (inr i, w1) ∧
    logs w1 = logs w ++ ex ∧
    ∀ e, accountResponse host c addr = inl e →
         i = None ∧ fetchFailure addr e ∈ ex.
Proof.
  rewrite fetchAccountInfo_run.
  destruct (accountResponse host c addr) as [e|i].
  - exists None, [fetchFailure addr e], (logged (fetchFailure addr e) w).
    split; [reflexivity|]. split; [reflexivity|].
    intros e' [= <-]. split; [reflexivity|]. apply list_elem_of_singleton.
    reflexivity.
  - exists i, [], w. split; [reflexivity|].
    split; [now rewrite app_nil_r|]. discriminate.
Qed.

Section Discover.

Variable host : Host.
Variable this : RentReclaimer.

Lemma discovered_nil : discovered host (connection this) [] [].
Proof.
  split; [constructor|]. intros r e Hr. now apply elem_of_nil in Hr.
Qed.

Lemma discovered_app new1 extra1 new2 extra2 :
  discovered host (connection this) new1 extra1 →
  discovered host (connection this) new2 extra2 →
  (∀ a, a ∈ address <$> new1 → a ∉ address <$> new2) →
  discovered host (connection this) (new1 ++ new2) (extra1 ++ extra2).
Proof.
  intros [Hnd1 H1] [Hnd2 H2] Hdisj. split.
  - rewrite fmap_app. apply NoDup_app. auto.
  - intros r e Hr Hresp. apply elem_of_app in Hr as [Hr|Hr].
    + destruct (H1 r e Hr Hresp). split; [assumption|].
      apply elem_of_app. now left.
    + destruct (H2 r e Hr Hresp). split; [assumption|].
      apply elem_of_app. now right.
Qed.

(** One turn of the inner loop on an address not seen yet. *)
Lemma collectKeys_fresh sigInfo addr rest seen result w :
  addr ∉ seen →
  collectKeys host this sigInfo (addr :: rest) seen result w =
  match Solana.fetchAccountInfo host (connection this) addr w with
  | (inr i, w1) =>
      collectKeys host this sigInfo rest (seen ∪ {[addr]})
        (result ++ [snapshot sigInfo addr i]) w1
  | (inl e, w1) => (inl e, w1)
  end.
Proof.
  intros Hnew. cbn [collectKeys].
  destruct (decide (addr ∈ seen)); [contradiction|].
  unfold mbind, promise_bind, await.
  destruct (Solana.fetchAccountInfo host (connection this) addr w)
    as [[e|[a|]] w1]; reflexivity.
Qed.

Lemma collectKeys_spec sigInfo keys :
  ∀ seen result w,
    ∃ seen' new extra w',
      collectKeys host this sigInfo keys seen result w =
        (inr (seen', result ++ new), w') ∧
      logs w' = logs w ++ extra ∧
      (∀ a, a ∈ seen' ↔ a ∈ seen ∨ a ∈ keys) ∧
      (∀ a, a ∈ address <$> new ↔ a ∈ keys ∧ a ∉ seen) ∧
      discovered host (connection this) new extra.
Proof.
  induction keys as [|addr rest IH]; intros seen result w.
  - exists seen, [], [], w. rewrite !app_nil_r.
    split; [reflexivity|]. split; [reflexivity|].
    split; [intros a; rewrite elem_of_nil; tauto|].
    split; [|apply discovered_nil].
    intros a. cbn. rewrite !elem_of_nil. tauto.
  - destruct (decide (addr ∈ seen)) as [Hseen|Hfresh].
    { cbn [collectKeys]. destruct (decide (addr ∈ seen)); [|contradiction].
      destruct (IH seen result w)
        as (seen' & new & extra & w' & Hrun & Hlog & Hseen' & Hnew & Hdisc).
      exists seen', new, extra, w'.
      split; [exact Hrun|]. split; [exact Hlog|].
      split.
      - intros a. rewrite Hseen', elem_of_cons.
        split; [tauto|]. intros [H|[->|H]]; auto.
      - split; [|exact Hdisc].
        intros a. rewrite Hnew, elem_of_cons.
        split; [tauto|]. intros [[->|H] Ha]; [contradiction|auto]. }
    rewrite (collectKeys_fresh _ _ _ _ _ _ Hfresh).
    destruct (fetchAccountInfo_cases host (connection this) addr w)
      as (i & ex & w1 & -> & Hlog1 & Hfail).
    destruct (IH (seen ∪ {[addr]}) (result ++ [snapshot sigInfo addr i]) w1)
      as (seen' & new & extra & w' & Hrun & Hlog & Hseen' & Hnew & Hdisc).
    assert (address (snapshot sigInfo addr i) = addr) as Haddr
      by (destruct i; reflexivity).
    exists seen', (snapshot sigInfo addr i :: new), (ex ++ extra), w'.
    split; [now rewrite Hrun, <- app_assoc|].
    split; [now rewrite Hlog, Hlog1, app_assoc|].
    split.
    { intros a. rewrite Hseen', elem_of_union, elem_of_singleton, elem_of_cons.
      tauto. }
    split.
    { intros a. rewrite fmap_cons, !elem_of_cons, Hnew, Haddr.
      rewrite elem_of_union, elem_of_singleton.
      split.
      - intros [->|[Ha Hn]]; [auto|]. split; [auto|]. tauto.
      - intros [[->|Ha] Hn]; [auto|].
        destruct (decide (a = addr)) as [->|Hne]; [auto|]. right. tauto. }
    apply (discovered_app [snapshot sigInfo addr i] ex new extra).
    + split; [apply NoDup_singleton|].
      intros r e Hr Hresp. apply list_elem_of_singleton in Hr. subst r.
      rewrite Haddr in Hresp |- *.
      destruct (Hfail e Hresp) as [-> Hin]. split; [|exact Hin].
      repeat split.
    + exact Hdisc.
    + intros a Ha. cbn in Ha. apply list_elem_of_singleton in Ha. subst a.
      rewrite Hnew, Haddr, elem_of_union, elem_of_singleton. tauto.
Qed.

(** One turn of the outer loop. *)
Lemma scanSignatures_step sigInfo rest seen result w :
  scanSignatures host this (sigInfo :: rest) seen result w =
  match getParsedTransaction (connection this) (sig_signature sigInfo) with
  | inr (Some keys) =>
      match collectKeys host this sigInfo keys seen result w with
      | (inr (seen', result'), w1) =>
          scanSignatures host this rest seen' result' w1
      | (inl e, w1) => (inl e, w1)
      end
  | _ => scanSignatures host this rest seen result w
  end.
Proof.
  cbn [scanSignatures]. unfold mbind, promise_bind, await, try_catch, rpc.
  destruct (getParsedTransaction _ _) as [e|[keys|]]; try reflexivity.
  destruct (collectKeys _ _ _ _ _ _ _) as [[e|[seen' result']] w1];
    reflexivity.
Qed.

Lemma scanSignatures_spec signatures :
  ∀ seen result w,
    ∃ new extra w',
      scanSignatures host this signatures seen result w =
        (inr (result ++ new), w') ∧
      logs w' = logs w ++ extra ∧
      (∀ a, a ∈ address <$> new ↔
            a ∈ parsedKeys (connection this) signatures ∧ a ∉ seen) ∧
      discovered host (connection this) new extra.
Proof.
  induction signatures as [|sigInfo rest IH]; intros seen result w.
  - exists [], [], w. rewrite !app_nil_r.
    split; [reflexivity|]. split; [reflexivity|].
    split; [|apply discovered_nil].
    intros a. cbn. rewrite !elem_of_nil. tauto.
  - rewrite scanSignatures_step. unfold parsedKeys. cbn [flat_map].
    fold (parsedKeys (connection this) rest).
    destruct (getParsedTransaction _ _) as [e|[keys|]];
      [exact (IH seen result w)| |exact (IH seen result w)].
    destruct (collectKeys_spec sigInfo keys seen result w)
      as (seen1 & new1 & extra1 & w1 & -> & Hlog1 & Hseen1 & Hnew1 & Hdisc1).
    destruct (IH seen1 (result ++ new1) w1)
      as (new2 & extra2 & w2 & -> & Hlog2 & Hnew2 & Hdisc2).
    exists (new1 ++ new2), (extra1 ++ extra2), w2.
    split; [now rewrite app_assoc|].
    split; [now rewrite Hlog2, Hlog1, app_assoc|].
    split.
    + intros a. rewrite fmap_app, !elem_of_app, Hnew1, Hnew2, Hseen1.
      destruct (decide (a ∈ keys)); tauto.
    + apply discovered_app; [assumption..|].
      intros a. rewrite Hnew1, Hnew2, Hseen1. tauto.
Qed.

End Discover.

(** C6. When the query for the history of the fee payer fails,
    [getSponsoredAccounts] returns the empty list: it does not raise, and
    leaves two lines in the log. *)
Theorem getSponsoredAccounts_history_failure host this w e :
  getSignaturesForAddress (connection this) (feePayer this) 100 = inl e →
  getSponsoredAccounts host this w =
  (inr [],
   logged (LogError error_level "getSponsoredAccounts failed" e)
     (logged (Log info "Fetching sponsored accounts …") w)).
Proof.
  intros Hfail. unfold getSponsoredAccounts. run. rewrite Hfail. reflexivity.
Qed.

Lemma getSponsoredAccounts_history_failure_witness :
  getSignaturesForAddress Scenario.offline "Payer" 100 = inl "fetch failed" ∧
  (getSponsoredAccounts Scenario.tenDaysLater
     (Scenario.reclaimer Scenario.offline 1000000) Scenario.world0).1 = inr [].
Proof.
  split; [reflexivity|].
  now rewrite (getSponsoredAccounts_history_failure Scenario.tenDaysLater
                 (Scenario.reclaimer Scenario.offline 1000000) Scenario.world0
                 "fetch failed" eq_refl).
Defined.

(** C3, where the code departs from it. The fee payer of [Scenario] took
    part in two transactions; the request for the snapshot of one of their
    accounts is refused by the RPC node. The failure is logged, and the
    account is in the list discovery returns all the same, as an account
    that is gone: balance 0, no owner, no data. *)
Theorem getSponsoredAccounts_fetch_failure :
  let this := Scenario.reclaimer Scenario.ledger 1000000 in
  let run := getSponsoredAccounts Scenario.tenDaysLater this
               Scenario.world0 in
  getAccountInfo (connection this) "Flaky" = inl "429 Too Many Requests" ∧
  getAccountInfo (connection this) "Gone" = inr None ∧
  fetchFailure "Flaky" "429 Too Many Requests" ∈ logs run.2 ∧
  run.1 =
  inr [ {| address := "Payer"; lamports := 0; owner := "";
           executable := false; dataLength := 0;
           lastActivity := Some Scenario.lastSeen |};
        {| address := "Flaky"; lamports := 0; owner := "";
           executable := false; dataLength := 0;
           lastActivity := Some Scenario.lastSeen |};
        {| address := "Idle"; lamports := 3000000;
           owner := SystemProgram_programId; executable := false;
           dataLength := 32; lastActivity := Some Scenario.lastSeen |};
        {| address := "Gone"; lamports := 0; owner := "";
           executable := false; dataLength := 0;
           lastActivity := Some Scenario.lastSeen |} ].
Proof.
  cbv zeta. repeat split; try (vm_compute; reflexivity).
  apply list_elem_of_In. vm_compute. auto.
Qed.

(** ** Evaluation only observes *)

Lemma observes_refl w : observes 0 w w.
Proof. unfold observes. repeat split; auto; lia. Qed.

Lemma observes_trans n m w1 w2 w3 :
  observes n w1 w2 → observes m w2 w3 → observes (n + m) w1 w3.
Proof.
  intros (Hc1 & Hl1 & Hs1 & Hp1 & Ha1 & Ht1)
         (Hc2 & Hl2 & Hs2 & Hp2 & Ha2 & Ht2).
  unfold observes. repeat split; try congruence; try lia.
  now transitivity (logs w2).
Qed.

Lemma observes_weaken n m w w' :
  (n ≤ m)%nat → observes n w w' → observes m w w'.
Proof.
  intros Hle (Hc & Hl & Hs & Hp & Ha & Ht). unfold observes.
  repeat split; auto; lia.
Qed.

Lemma observes_logged e w :
  isReclaimEntry e = false → observes 0 w (logged e w).
Proof.
  intros He. unfold observes, auditTrail. cbn. repeat split; try lia.
  - now apply prefix_app_r.
  - rewrite List.filter_app. cbn. rewrite He. apply app_nil_r.
Qed.

Lemma observes_ticked w : observes 1 w (ticked w).
Proof. unfold observes. cbn. repeat split; auto; lia. Qed.

Lemma fetchAccountInfo_observes host c addr w :
  observes 0 w (Solana.fetchAccountInfo host c addr w).2.
Proof.
  rewrite fetchAccountInfo_run.
  destruct (accountResponse host c addr);
    [now apply observes_logged|apply observes_refl].
Qed.

Lemma hasRecentActivity_observes host c addr days w :
  observes 1 w (Solana.hasRecentActivity host c addr days w).2.
Proof.
  rewrite hasRecentActivity_run.
  destruct (signatureResponse host c addr) as [e|[|s0 sigs]]; cbn.
  - apply (observes_weaken 0); [lia|now apply observes_logged].
  - apply (observes_weaken 0); [lia|apply observes_refl].
  - destruct (blockTime s0) as [bt|];
      [destruct (bt =? 0)|]; cbn;
      try (apply (observes_weaken 0); [lia|apply observes_refl]).
    apply observes_ticked.
Qed.

Lemma afterAccount_observes host this acct w :
  observes 1 w (afterAccount host this acct w).
Proof.
  unfold afterAccount, evaluateAccount.
  unfold mbind, promise_bind, await, try_catch.
  rewrite fetchAccountInfo_run.
  destruct (accountResponse host (connection this) (address acct))
    as [e|[live|]]; cbn [Solana.isAccountClosed].
  all: repeat (split_if; run);
    try solve [ apply (observes_weaken 0);
                [lia|first [apply observes_refl|now apply observes_logged]] ].
  destruct (hasRecentActivity_returns host (connection this) (address acct)
              (accountAgeThreshold (config this)) w) as (active & w' & Hact).
  pose proof (hasRecentActivity_observes host (connection this)
                (address acct) (accountAgeThreshold (config this)) w) as Hobs.
  rewrite Hact in Hobs |- *. destruct active; exact Hobs.
Qed.

Lemma afterAll_observes host this accounts w :
  observes (length accounts) w (afterAll host this accounts w).
Proof.
  revert w. induction accounts as [|acct rest IH]; intros w; cbn.
  - apply observes_refl.
  - apply (observes_trans 1 (length rest) w
             (afterAccount host this acct w)).
    + apply afterAccount_observes.
    + apply IH.
Qed.

Lemma identifyReclaimableAccounts_observes host this accounts w :
  observes (length accounts) w
    (identifyReclaimableAccounts host this accounts w).2.
Proof.
  rewrite identifyReclaimableAccounts_run. cbn [snd].
  apply (observes_weaken (0 + (length accounts + 0))); [lia|].
  apply (observes_trans 0 _ w (evaluationStarted w));
    [now apply observes_logged|].
  apply (observes_trans (length accounts) 0 _
           (afterAll host this accounts (evaluationStarted w)));
    [apply afterAll_observes|now apply observes_logged].
Qed.

(** Evaluation sends nothing and credits nothing. It leaves the confirmed
    transfers and both running totals of the instance as they were, only
    adds lines to the log, none of them a reclaim line, and reads the clock
    at most once per account. *)
Theorem evaluate_only_observes host this accounts w :
  observes (length accounts) w
    (identifyReclaimableAccounts host this accounts w).2.
Proof.
  rewrite identifyReclaimableAccounts_run. cbn [snd].
  apply (observes_weaken (0 + (length accounts + 0))); [lia|].
  apply (observes_trans 0 _ w (evaluationStarted w));
    [now apply observes_logged|].
  apply (observes_trans (length accounts) 0 _
           (afterAll host this accounts (evaluationStarted w)));
    [apply afterAll_observes|now apply observes_logged].
Qed.

(** ** Evaluation: rule B, the threshold, and a failed snapshot *)

(** Rule B. An account that exists with a non-zero balance of at least
    [minRentThreshold] and no payload is pushed under rule B with its
    current balance as estimate, at any place of any input list. Its
    check leaves the state as it found it: nothing is logged and the clock
    is not read. *)
Theorem evaluate_empty_account host this pre acct post w live :
  accountResponse host (connection this) (address acct) = inr (Some live) →
  info_lamports live ≠ 0 →
  info_data live = [] →
  minRentThreshold (config this) ≤ info_lamports live →
  let pushed :=
    {| base := withLamports acct (info_lamports live);
       reason := ACCOUNT_EMPTY;
       estimatedRent := info_lamports live |} in
  (identifyReclaimableAccounts host this (pre ++ acct :: post) w).1 =
  inr (collected host this pre (evaluationStarted w) ++
       [pushed] ++
       collected host this post
         (afterAll host this pre (evaluationStarted w))) ∧
  (∀ reclaimable w0,
     evaluateAccount host this acct reclaimable w0 =
       (inr (reclaimable ++ [pushed]), w0)).
Proof.
  intros Hresp Hnz Hdata Hmin pushed. split.
  - rewrite identifyReclaimableAccounts_returns, collected_app. cbn.
    destruct (verdict_empty host this acct live
                (afterAll host this pre (evaluationStarted w))
                Hresp Hnz Hdata Hmin) as [-> ->].
    reflexivity.
  - intros reclaimable w0. rewrite evaluateAccount_acc.
    destruct (verdict_empty host this acct live w0 Hresp Hnz Hdata Hmin)
      as [-> ->].
    reflexivity.
Qed.

Lemma evaluate_empty_account_witness :
  (identifyReclaimableAccounts Scenario.tenDaysLater
     (Scenario.reclaimer Scenario.ledger 1000000)
     [Scenario.sponsored "Grown" 2000000 None] Scenario.world0).1 =
  inr [{| base := Scenario.sponsored "Grown" 5000000 None;
          reason := ACCOUNT_EMPTY; estimatedRent := 5000000 |}].
Proof.
  refine (proj1 (evaluate_empty_account Scenario.tenDaysLater
                   (Scenario.reclaimer Scenario.ledger 1000000) []
                   (Scenario.sponsored "Grown" 2000000 None) []
                   Scenario.world0 (Scenario.systemAccount 5000000 [])
                   _ _ _ _)).
  - reflexivity.
  - cbn. lia.
  - reflexivity.
  - cbn. lia.
Defined.

(** Below the threshold. An account that exists with a non-zero balance
    under [minRentThreshold] adds nothing, whatever its payload and its
    history. Its check leaves the state as it found it: nothing is logged
    and the clock is not read. *)
Theorem evaluate_low_balance_account host this pre acct post w live :
  accountResponse host (connection this) (address acct) = inr (Some live) →
  info_lamports live ≠ 0 →
  info_lamports live < minRentThreshold (config this) →
  (identifyReclaimableAccounts host this (pre ++ acct :: post) w).1 =
  inr (collected host this pre (evaluationStarted w) ++
       collected host this post
         (afterAll host this pre (evaluationStarted w))) ∧
  (∀ reclaimable w0,
     evaluateAccount host this acct reclaimable w0 = (inr reclaimable, w0)).
Proof.
  intros Hresp Hnz Hlow. split.
  - rewrite identifyReclaimableAccounts_returns, collected_app. cbn.
    destruct (verdict_low host this acct live
                (afterAll host this pre (evaluationStarted w))
                Hresp Hnz Hlow) as [-> ->].
    reflexivity.
  - intros reclaimable w0. rewrite evaluateAccount_acc.
    destruct (verdict_low host this acct live w0 Hresp Hnz Hlow)
      as [-> ->].
    now rewrite app_nil_r.
Qed.

(** Scenario 2: 500,000 lamports and no payload under a threshold of
    1,000,000. *)
Lemma evaluate_low_balance_account_witness :
  (identifyReclaimableAccounts Scenario.tenDaysLater
     (Scenario.reclaimer Scenario.ledger 1000000)
     [Scenario.sponsored "Bare" 500000 None] Scenario.world0).1 = inr [].
Proof.
  refine (proj1 (evaluate_low_balance_account Scenario.tenDaysLater
                   (Scenario.reclaimer Scenario.ledger 1000000) []
                   (Scenario.sponsored "Bare" 500000 None) []
                   Scenario.world0 (Scenario.systemAccount 500000 [])
                   _ _ _)).
  - reflexivity.
  - cbn. lia.
  - cbn. lia.
Defined.

(** A snapshot that cannot be fetched. When the request for the account
    fails during evaluation, [fetchAccountInfo] logs the failure and answers
    [null], and the account is judged as a closed one: it is returned under
    rule A exactly when the balance recorded at discovery reaches the
    threshold, whatever the ledger holds. *)
Theorem evaluate_fetch_failure host this pre acct post w e :
  accountResponse host (connection this) (address acct) = inl e →
  (identifyReclaimableAccounts host this (pre ++ acct :: post) w).1 =
  inr (collected host this pre (evaluationStarted w) ++
       (if decide (minRentThreshold (config this) ≤ lamports acct)
        then [{| base := acct; reason := ACCOUNT_CLOSED;
                 estimatedRent := lamports acct |}]
        else []) ++
       collected host this post
         (logged (fetchFailure (address acct) e)
            (afterAll host this pre (evaluationStarted w)))) ∧
  fetchFailure (address acct) e ∈
    logs (identifyReclaimableAccounts host this (pre ++ acct :: post) w).2.
Proof.
  intros Hresp.
  destruct (verdict_failed host this acct e
              (afterAll host this pre (evaluationStarted w)) Hresp)
    as [Hverdict Hafter].
  split.
  - rewrite identifyReclaimableAccounts_returns, collected_app. cbn.
    rewrite Hverdict, Hafter. do 3 f_equal.
    destruct (decide _) as [Hle|Hlt].
    + apply Z.geb_le in Hle. now rewrite Hle.
    + rewrite Z.geb_leb. apply Z.leb_nle in Hlt. now rewrite Hlt.
  - rewrite identifyReclaimableAccounts_run. cbn [snd].
    rewrite afterAll_app. cbn [afterAll]. rewrite Hafter.
    destruct (afterAll_observes host this post
                (logged (fetchFailure (address acct) e)
                   (afterAll host this pre (evaluationStarted w))))
      as (_ & _ & _ & [extra Hextra] & _).
    unfold fetchFailure in *. cbn [logged logs] in *. rewrite Hextra.
    rewrite !elem_of_app, list_elem_of_singleton. auto.
Qed.

(** The ledger holds 3,000,000 lamports on a busy account; the request for
    it is refused and the account, recorded with 2,000,000 at discovery, is
    returned as closed. *)
Lemma evaluate_fetch_failure_witness :
  (identifyReclaimableAccounts Scenario.tenDaysLater
     (Scenario.reclaimer Scenario.ledger 1000000)
     [Scenario.sponsored "Flaky" 2000000 None] Scenario.world0).1 =
  inr [{| base := Scenario.sponsored "Flaky" 2000000 None;
          reason := ACCOUNT_CLOSED; estimatedRent := 2000000 |}].
Proof.
  apply (evaluate_fetch_failure Scenario.tenDaysLater
           (Scenario.reclaimer Scenario.ledger 1000000) []
           (Scenario.sponsored "Flaky" 2000000 None) [] Scenario.world0
           "429 Too Many Requests").
  reflexivity.
Defined.

(** A threshold that is not a number. [Number] makes [NaN] of a malformed
    setting, and [daysSince < NaN] is false at every age: under such a
    threshold an account that exists with payload and a balance of at least
    [minRentThreshold] is pushed under rule C as soon as its latest
    signature carries a non-zero timestamp, however recent it is. *)
Theorem evaluate_threshold_not_a_number
    host this pre acct post w live s0 sigs bt :
  accountAgeThreshold (config this) = NaN →
  accountResponse host (connection this) (address acct) = inr (Some live) →
  info_lamports live ≠ 0 →
  info_data live ≠ [] →
  minRentThreshold (config this) ≤ info_lamports live →
  signatureResponse host (connection this) (address acct) =
    inr (s0 :: sigs) →
  blockTime s0 = Some bt →
  bt ≠ 0 →
  (identifyReclaimableAccounts host this (pre ++ acct :: post) w).1 =
  inr (collected host this pre (evaluationStarted w) ++
       [{| base := withLamports acct (info_lamports live);
           reason := ACCOUNT_INACTIVE;
           estimatedRent := info_lamports live |}] ++
       collected host this post
         (ticked (afterAll host this pre (evaluationStarted w)))).
Proof.
  intros Hdays Hresp Hnz Hdata Hmin Hsigs Hbt Hbt0.
  rewrite identifyReclaimableAccounts_returns, collected_app. cbn.
  pose proof (hasRecentActivity_run host (connection this) (address acct)
                (accountAgeThreshold (config this))
                (afterAll host this pre (evaluationStarted w))) as Hact.
  rewrite Hsigs, Hbt, Hdays in Hact.
  apply Z.eqb_neq in Hbt0. rewrite Hbt0 in Hact. cbn in Hact.
  rewrite <- Hdays in Hact.
  apply Z.eqb_neq in Hbt0.
  destruct (verdict_checked host this acct live false _ _
              Hresp Hnz Hdata Hmin Hact) as [-> ->].
  reflexivity.
Qed.

(** The account of scenario 3, one millisecond after its latest
    signature. *)
Lemma evaluate_threshold_not_a_number_witness :
  let this :=
    {| connection := Scenario.ledger; feePayer := "Payer";
       treasury := "Treasury";
       config := {| minRentThreshold := 1000000;
                    accountAgeThreshold := NaN |} |} in
  (identifyReclaimableAccounts
     (Scenario.frozenAt (Scenario.lastSeen * 1000 + 1)) this
     [Scenario.sponsored "Idle" 3000000 None] Scenario.world0).1 =
  inr [{| base := Scenario.sponsored "Idle" 3000000 None;
          reason := ACCOUNT_INACTIVE; estimatedRent := 3000000 |}].
Proof.
  cbv zeta.
  refine (evaluate_threshold_not_a_number
            (Scenario.frozenAt (Scenario.lastSeen * 1000 + 1)) _ []
            (Scenario.sponsored "Idle" 3000000 None) [] Scenario.world0
            (Scenario.systemAccount 3000000 Scenario.payload)
            {| sig_signature := "sig1"; blockTime := Some Scenario.lastSeen |}
            [] Scenario.lastSeen _ _ _ _ _ _ _ _).
  - reflexivity.
  - reflexivity.
  - cbn. lia.
  - discriminate.
  - cbn. lia.
  - reflexivity.
  - reflexivity.
  - unfold Scenario.lastSeen. lia.
Defined.

(** ** Evaluation: every record is justified *)

Ltac split_in H :=
  match type of H with
  | context [if ?b then _ else _] => destruct b eqn:?
  | context [match ?x with _ => _ end] => destruct x eqn:?
  end.

Lemma classify_justified cfg acct ar sr t r :
  r ∈ classify cfg acct ar sr t →
  match reason r with
  | ACCOUNT_CLOSED =>
      r = closedRecord acct ∧ minRentThreshold cfg ≤ lamports acct ∧
      ∀ live, ar = inr (Some live) → info_lamports live = 0
  | ACCOUNT_EMPTY =>
      ∃ live, ar = inr (Some live) ∧ r = liveRecord acct ACCOUNT_EMPTY live ∧
              info_lamports live ≠ 0 ∧ info_data live = [] ∧
              minRentThreshold cfg ≤ info_lamports live
  | ACCOUNT_INACTIVE =>
      ∃ live, ar = inr (Some live) ∧
              r = liveRecord acct ACCOUNT_INACTIVE live ∧
              info_lamports live ≠ 0 ∧ info_data live ≠ [] ∧
              minRentThreshold cfg ≤ info_lamports live ∧
              saysInactive sr t (accountAgeThreshold cfg)
  end.
Proof.
  unfold classify, saysInactive. intros H.
  repeat split_in H; subst;
    try (apply elem_of_nil in H; contradiction);
    apply list_elem_of_singleton in H; subst r;
    cbn [reason closedRecord liveRecord].
  all: repeat match goal with
         | H : (_ =? _) = false |- _ => apply Z.eqb_neq in H
         | H : (_ =? _) = true |- _ => apply Z.eqb_eq in H
         | H : (_ >=? _) = true |- _ => apply Z.geb_le in H
         | H : _ && _ = true |- _ => apply andb_prop in H as [? ?]
         | H : _ && true = false |- _ => rewrite andb_true_r in H
         | H : Solana.lessThan _ _ = false |- _ => apply lessThan_false in H
         end.
  all: try (split; [reflexivity|]; split; [assumption|];
            intros ? [=]; subst; assumption).
  all: eexists; split; [reflexivity|]; split; [reflexivity|].
  all: repeat split; auto.
  all: try match goal with
         | H : Solana.hasEmptyData _ = true |- info_data ?l = [] =>
             cbn in H; destruct (info_data l); [reflexivity|discriminate]
         | H : Solana.hasEmptyData _ = false |- info_data ?l ≠ [] =>
             cbn in H; destruct (info_data l); [discriminate|discriminate]
         end.
Qed.

(** Soundness of evaluation. Every record returned stems from an input
    account and meets the rule its reason names. Closed: the balance
    recorded at discovery reaches the threshold and the ledger did not
    answer a funded account. Empty: the ledger answered a funded account
    without payload whose balance reaches the threshold. Inactive: it
    answered a funded account with payload whose balance reaches the
    threshold, and whose latest signature says it is inactive at a reading
    of the clock: there is none, or its timestamp is not zero and the test
    [daysSince < accountAgeThreshold] fails on it, as it does at an age of
    at least the threshold and, when the threshold is [NaN], at every
    age. *)
Theorem evaluate_sound host this accounts w :
  ∃ rs, (identifyReclaimableAccounts host this accounts w).1 = inr rs ∧
    ∀ r, r ∈ rs →
      ∃ acct, acct ∈ accounts ∧ address (base r) = address acct ∧
        let ar := accountResponse host (connection this) (address acct) in
        let minRent := minRentThreshold (config this) in
        match reason r with
        | ACCOUNT_CLOSED =>
            minRent ≤ lamports acct ∧
            ∀ live, ar = inr (Some live) → info_lamports live = 0
        | ACCOUNT_EMPTY =>
            ∃ live, ar = inr (Some live) ∧ info_lamports live ≠ 0 ∧
                    info_data live = [] ∧ minRent ≤ info_lamports live
        | ACCOUNT_INACTIVE =>
            ∃ live n, ar = inr (Some live) ∧ info_lamports live ≠ 0 ∧
                      info_data live ≠ [] ∧ minRent ≤ info_lamports live ∧
                      saysInactive
                        (signatureResponse host (connection this)
                           (address acct))
                        (Date_now host n) (accountAgeThreshold (config this))
        end.
Proof.
  eexists. split; [apply identifyReclaimableAccounts_returns|].
  intros r Hr.
  apply collected_elem in Hr as (acct & w' & Hin & Hr).
  rewrite verdict_classify in Hr.
  apply classify_justified in Hr.
  exists acct. split; [exact Hin|].
  destruct (reason r); cbv zeta.
  - destruct Hr as (-> & Hmin & Hzero). auto.
  - destruct Hr as (live & Hresp & -> & Hnz & Hdata & Hmin).
    split; [reflexivity|]. exists live. auto.
  - destruct Hr as (live & Hresp & -> & Hnz & Hdata & Hmin & Hsays).
    split; [reflexivity|]. exists live, (ticks w'). auto.
Qed.

Lemma evaluate_sound_witness :
  ∃ rs,
    (identifyReclaimableAccounts Scenario.tenDaysLater
       (Scenario.reclaimer Scenario.ledger 1000000)
       [Scenario.sponsored "Gone" 2000000 None;
        Scenario.sponsored "Grown" 1 None;
        Scenario.sponsored "Idle" 1 None] Scenario.world0).1 = inr rs ∧
    reason <$> rs = [ACCOUNT_CLOSED; ACCOUNT_EMPTY; ACCOUNT_INACTIVE] ∧
    Forall (fun r => address (base r) ∈ ["Gone"; "Grown"; "Idle"]) rs.
Proof.
  destruct (evaluate_sound Scenario.tenDaysLater
              (Scenario.reclaimer Scenario.ledger 1000000)
              [Scenario.sponsored "Gone" 2000000 None;
               Scenario.sponsored "Grown" 1 None;
               Scenario.sponsored "Idle" 1 None] Scenario.world0)
    as (rs & Hrun & Hall).
  exists rs. split; [exact Hrun|]. split.
  - vm_compute in Hrun. injection Hrun as <-. reflexivity.
  - apply Forall_forall. intros r Hr.
    destruct (Hall r Hr) as (acct & Hin & -> & _).
    apply (list_elem_of_fmap_2 address) in Hin. exact Hin.
Defined.

(** ** Evaluation: order and number of the records *)

Lemma classify_at_most_one cfg acct ar sr t :
  classify cfg acct ar sr t = [] ∨
  ∃ r, classify cfg acct ar sr t = [r] ∧ address (base r) = address acct.
Proof.
  unfold classify.
  repeat case_match; first [left; reflexivity|right; eexists; split; reflexivity].
Qed.

Lemma collected_keeps_order host this accounts w :
  (fun r => address (base r)) <$> collected host this accounts w
  `sublist_of` address <$> accounts.
Proof.
  revert w. induction accounts as [|acct rest IH]; intros w; cbn.
  - constructor.
  - rewrite verdict_classify.
    destruct (classify_at_most_one (config this) acct
                (accountResponse host (connection this) (address acct))
                (signatureResponse host (connection this) (address acct))
                (Date_now host (ticks w))) as [->|(r & -> & Haddr)]; cbn.
    + apply sublist_cons. apply IH.
    + rewrite Haddr. apply sublist_skip. apply IH.
Qed.

(** Evaluation returns at most one record per input account and keeps the
    order of the input: the addresses returned are the input addresses
    with some of them struck out. *)
Theorem evaluate_keeps_order host this accounts w :
  ∃ rs, (identifyReclaimableAccounts host this accounts w).1 = inr rs ∧
    (fun r => address (base r)) <$> rs `sublist_of` address <$> accounts ∧
    (length rs ≤ length accounts)%nat.
Proof.
  eexists. split; [apply identifyReclaimableAccounts_returns|].
  pose proof (collected_keeps_order host this accounts (evaluationStarted w))
    as Hsub.
  split; [exact Hsub|].
  apply sublist_length in Hsub. now rewrite !length_fmap in Hsub.
Qed.

(** ** The activity check and the passing of time *)

(** The activity check never raises, and answers [false] exactly when the
    latest signature says the account is inactive at the reading it takes:
    there is no signature, or the latest one carries a non-zero timestamp
    on which the test [daysSince < daysThreshold] fails, as it does at an
    age of at least the threshold and, when the threshold is [NaN], at
    every age. A lookup that fails, or an address that is no public key,
    is answered [true] and logged as an error under the name of the check;
    for a lookup the RPC node refuses, the entry carries the error it
    raised. *)
Theorem hasRecentActivity_false_iff host c addr days w :
  ∃ active w',
    Solana.hasRecentActivity host c addr days w = (inr active, w') ∧
    (active = false ↔
     saysInactive (signatureResponse host c addr) (Date_now host (ticks w))
       days) ∧
    ∀ e, signatureResponse host c addr = inl e →
         active = true ∧
         ∃ raised,
           LogError error_level
             ("hasRecentActivity check failed for " +:+ addr) raised
             ∈ logs w' ∧
           (PublicKey_valid host addr = true → raised = e).
Proof.
  rewrite hasRecentActivity_run. unfold saysInactive.
  destruct (signatureResponse host c addr) as [e|[|s0 sigs]].
  - do 2 eexists. split; [reflexivity|]. split; [split; [discriminate|tauto]|].
    intros e' [= <-]. split; [reflexivity|]. exists e. split; [|reflexivity].
    cbn. apply elem_of_app. right. now apply list_elem_of_singleton.
  - do 2 eexists. split; [reflexivity|]. split; [tauto|discriminate].
  - destruct (blockTime s0) as [bt|].
    + destruct (bt =? 0) eqn:Hbt.
      * do 2 eexists. split; [reflexivity|]. apply Z.eqb_eq in Hbt.
        split; [split; [discriminate|tauto]|discriminate].
      * do 2 eexists. split; [reflexivity|]. apply Z.eqb_neq in Hbt.
        split; [|discriminate]. rewrite lessThan_false. tauto.
    + do 2 eexists. split; [reflexivity|].
      split; [split; [discriminate|tauto]|discriminate].
Qed.

Lemma hasRecentActivity_false_iff_witness :
  ∃ active w',
    Solana.hasRecentActivity Scenario.tenDaysLater Scenario.offline "Idle"
      (Num 7) Scenario.world0 = (inr active, w') ∧
    active = true ∧ length (logs w') = 1%nat.
Proof.
  destruct (hasRecentActivity_false_iff Scenario.tenDaysLater
              Scenario.offline "Idle" (Num 7) Scenario.world0)
    as (active & w' & Hrun & _ & Hfail).
  exists active, w'. split; [exact Hrun|].
  destruct (Hfail "fetch failed" eq_refl) as [-> _].
  split; [reflexivity|].
  vm_compute in Hrun. injection Hrun as <-. reflexivity.
Defined.

Lemma daysSince_mono t1 t2 bt :
  t1 ≤ t2 → (Solana.daysSince t1 bt <= Solana.daysSince t2 bt)%Q.
Proof.
  intros Hle. unfold Solana.daysSince, Qdiv.
  apply Qmult_le_compat_r.
  - rewrite <- Zle_Qle. lia.
  - vm_compute. discriminate.
Qed.

Lemma reached_mono days x y : (x <= y)%Q → reached days x → reached days y.
Proof.
  intros Hle. destruct days as [| | |q]; cbn; try tauto.
  intros Hq. now apply (Qle_trans _ x).
Qed.

Lemma classify_later cfg acct ar sr t1 t2 :
  t1 ≤ t2 →
  classify cfg acct ar sr t1 `sublist_of` classify cfg acct ar sr t2.
Proof.
  intros Hle. unfold classify.
  destruct ar as [e|[live|]]; try reflexivity.
  destruct (info_lamports live =? 0); [reflexivity|].
  destruct (_ && _); [reflexivity|].
  destruct (info_lamports live >=? _); [|reflexivity].
  destruct sr as [e|[|s0 sigs]]; try reflexivity.
  destruct (blockTime s0) as [bt|]; [|reflexivity].
  destruct (bt =? 0); [reflexivity|].
  destruct (Solana.lessThan (Solana.daysSince t1 bt) _) eqn:H1;
    [apply sublist_nil_l|].
  apply lessThan_false in H1.
  assert (Solana.lessThan (Solana.daysSince t2 bt) (accountAgeThreshold cfg)
          = false) as ->; [|reflexivity].
  apply lessThan_false.
  apply (reached_mono _ (Solana.daysSince t1 bt)); [|exact H1].
  now apply daysSince_mono.
Qed.

Lemma afterAll_ticks host this accounts w :
  (ticks w ≤ ticks (afterAll host this accounts w))%nat.
Proof.
  destruct (afterAll_observes host this accounts w)
    as (_ & _ & _ & _ & _ & H).
  lia.
Qed.

Lemma collected_later host this accounts :
  (∀ n m, (n ≤ m)%nat → Date_now host n ≤ Date_now host m) →
  ∀ wa wb,
    (ticks (afterAll host this accounts wa) ≤ ticks wb)%nat →
    collected host this accounts wa `sublist_of`
    collected host this accounts wb.
Proof.
  intros Hmono. induction accounts as [|acct rest IH]; intros wa wb Hle;
    cbn; [constructor|].
  cbn in Hle.
  pose proof (afterAll_ticks host this rest (afterAccount host this acct wa)).
  destruct (afterAccount_observes host this acct wa)
    as (_ & _ & _ & _ & _ & Ha).
  destruct (afterAccount_observes host this acct wb)
    as (_ & _ & _ & _ & _ & Hb).
  apply sublist_app.
  - rewrite !verdict_classify. apply classify_later, Hmono. lia.
  - apply IH. lia.
Qed.

(** Accounts do not drop out with time. Against an unchanged ledger and
    under a clock that does not go back, a second evaluation of the same
    list, run in the state the first one left, returns every record the
    first returned, in the same order, possibly with more in between. *)
Theorem evaluate_again_later host this accounts w :
  (∀ n m, (n ≤ m)%nat → Date_now host n ≤ Date_now host m) →
  ∃ rs1 w1 rs2,
    identifyReclaimableAccounts host this accounts w = (inr rs1, w1) ∧
    (identifyReclaimableAccounts host this accounts w1).1 = inr rs2 ∧
    rs1 `sublist_of` rs2.
Proof.
  intros Hmono. do 3 eexists.
  split; [apply identifyReclaimableAccounts_run|].
  split; [apply identifyReclaimableAccounts_returns|].
  cbv zeta. apply (collected_later host this accounts Hmono).
  cbn. reflexivity.
Qed.

(** Six days after its last signature the account is left out, eight days
    after it is returned. *)
Lemma evaluate_again_later_witness :
  ∃ rs1 w1 rs2,
    identifyReclaimableAccounts Scenario.running
      (Scenario.reclaimer Scenario.ledger 1000000)
      [Scenario.sponsored "Gone" 2000000 None;
       Scenario.sponsored "Idle" 3000000 None] Scenario.world0 =
      (inr rs1, w1) ∧
    (identifyReclaimableAccounts Scenario.running
       (Scenario.reclaimer Scenario.ledger 1000000)
       [Scenario.sponsored "Gone" 2000000 None;
        Scenario.sponsored "Idle" 3000000 None] w1).1 = inr rs2 ∧
    rs1 `sublist_of` rs2 ∧
    reason <$> rs1 = [ACCOUNT_CLOSED] ∧
    reason <$> rs2 = [ACCOUNT_CLOSED; ACCOUNT_INACTIVE].
Proof.
  destruct (evaluate_again_later Scenario.running
              (Scenario.reclaimer Scenario.ledger 1000000)
              [Scenario.sponsored "Gone" 2000000 None;
               Scenario.sponsored "Idle" 3000000 None] Scenario.world0)
    as (rs1 & w1 & rs2 & H1 & H2 & Hsub).
  - intros n m Hnm. cbn. unfold Scenario.day. lia.
  - exists rs1, w1, rs2. split; [exact H1|]. split; [exact H2|].
    split; [exact Hsub|].
    vm_compute in H1. injection H1 as <- <-.
    vm_compute in H2. injection H2 as <-.
    split; reflexivity.
Defined.

(** ** Reporting after an evaluation *)

Lemma sumEstimated_from (l : list ReclaimableAccount) (s : Z) :
  foldl (fun s a => s + estimatedRent a) s l = s + sumEstimated l.
Proof.
  unfold sumEstimated. revert s.
  induction l as [|r l IH]; intros s; cbn; [lia|].
  rewrite (IH (s + estimatedRent r)), (IH (0 + estimatedRent r)). lia.
Qed.

Lemma sumEstimated_cons r l :
  sumEstimated (r :: l) = estimatedRent r + sumEstimated l.
Proof.
  unfold sumEstimated at 1. cbn. rewrite sumEstimated_from. lia.
Qed.

Lemma sumEstimated_at_least m l :
  (∀ r, r ∈ l → m ≤ estimatedRent r) →
  Z.of_nat (length l) * m ≤ sumEstimated l.
Proof.
  induction l as [|r l IH]; intros Hall; [reflexivity|].
  rewrite sumEstimated_cons. cbn [length].
  assert (m ≤ estimatedRent r) by (apply Hall; left).
  assert (Z.of_nat (length l) * m ≤ sumEstimated l)
    by (apply IH; intros r' Hr'; apply Hall; now right).
  lia.
Qed.

(** The statistics of a scan, under a threshold that is not negative.
    With the list evaluation returns for the monitored accounts, [getStats]
    reports no more reclaimable accounts than monitored ones, and the
    lifetime total and the time of the last scan there were before the
    evaluation. Where the estimates add up to no more than 2^53, so that
    every addition of the source is exact, the estimated total it reports
    is at least the threshold for each reclaimable account. *)
Theorem getStats_after_evaluation host this scanned w :
  0 ≤ minRentThreshold (config this) →
  ∃ rs w',
    identifyReclaimableAccounts host this scanned w = (inr rs, w') ∧
    let stats := getStats w' scanned rs in
    (reclaimableAccounts stats ≤ totalAccountsMonitored stats)%nat ∧
    (sumEstimated rs ≤ 2 ^ 53 →
     Z.of_nat (reclaimableAccounts stats) * minRentThreshold (config this) ≤
       estimatedReclaimable stats) ∧
    totalRentReclaimed stats = lifetimeReclaimed w ∧
    lastScanTimeStat stats = lastScanTime w.
Proof.
  intros Hpos.
  rewrite identifyReclaimableAccounts_run. cbv zeta.
  do 2 eexists. split; [reflexivity|]. cbn.
  split.
  { pose proof (collected_keeps_order host this scanned (evaluationStarted w))
      as Hsub.
    apply sublist_length in Hsub. now rewrite !length_fmap in Hsub. }
  split.
  { intros _. apply sumEstimated_at_least. intros r Hr.
    apply collected_elem in Hr as (acct & w1 & _ & Hr).
    rewrite verdict_classify in Hr.
    apply classify_shape in Hr
      as [[-> Hmin]|(live & _ & _ & Hmin & [->| ->])]; cbn; lia. }
  destruct (afterAll_observes host this scanned (evaluationStarted w))
    as (_ & Hlife & Hscan & _).
  split; [exact Hlife|exact Hscan].
Qed.

(** Scenario 7 without the fresh account: a closed account recorded with
    2,000,000 lamports and an inactive one holding 3,000,000, under a
    threshold of 1,000,000. *)
Lemma getStats_after_evaluation_witness :
  ∃ rs w',
    identifyReclaimableAccounts Scenario.tenDaysLater
      (Scenario.reclaimer Scenario.ledger 1000000)
      [Scenario.sponsored "Gone" 2000000 None;
       Scenario.sponsored "Idle" 3000000 None] Scenario.world0 =
      (inr rs, w') ∧
    sumEstimated rs = 5000000 ∧
    2 * 1000000 ≤
      estimatedReclaimable
        (getStats w' [Scenario.sponsored "Gone" 2000000 None;
                      Scenario.sponsored "Idle" 3000000 None] rs).
Proof.
  destruct (getStats_after_evaluation Scenario.tenDaysLater
              (Scenario.reclaimer Scenario.ledger 1000000)
              [Scenario.sponsored "Gone" 2000000 None;
               Scenario.sponsored "Idle" 3000000 None] Scenario.world0)
    as (rs & w' & Hrun & _ & Hsum & _).
  - cbn. lia.
  - exists rs, w'. split; [exact Hrun|].
    vm_compute in Hrun. injection Hrun as <- <-.
    split; [reflexivity|].
    apply Hsum. vm_compute. discriminate.
Defined.

(** ** Reclaim: one attempt *)

Ltac reclaim_cases host this account :=
  unfold reclaimRent; run;
  destruct (PublicKey_valid host (address (base account))) eqn:Hvalid; run;
  [ rewrite closeAccountAndReclaimRent_run; cbv zeta;
    destruct (getAccountInfo (connection this) (address (base account)))
      as [e|[a|]] eqn:Hinfo; run;
    [ | destruct (info_lamports a =? 0) eqn:Hzero; run;
        [ | destruct (String.eqb (info_owner a) SystemProgram_programId)
              eqn:Hown; run;
            [ destruct (sendAndConfirmTransaction (connection this) _
                          (feePayer this)) as [e|sg] eqn:Hsend; run | ] ]
      | ]
  | ].

Lemma auditTrail_app l1 l2 :
  auditTrail (l1 ++ l2) = auditTrail l1 ++ auditTrail l2.
Proof. apply List.filter_app. Qed.

(** Everything an attempt leaves behind, in one statement. *)
Lemma reclaimRent_spec host this account w :
  ∃ result w',
    reclaimRent host this account w = (inr result, w') ∧
    accountAddress result = address (base account) ∧
    timestamp result = Date_now host (ticks w) ∧
    ticks w' = S (ticks w) ∧
    lastScanTime w' = lastScanTime w ∧
    lifetimeReclaimed w' = lifetimeReclaimed w + reclaimedAmount result ∧
    length (confirmed w') =
      (length (confirmed w) + (if success result then 1 else 0))%nat ∧
    auditTrail (logs w') = auditTrail (logs w) ++ [auditEntry account result] ∧
    (if success result
     then is_Some (signature result) ∧ error result = None
     else signature result = None ∧ is_Some (error result)) ∧
    (success result = true ↔
     ∃ live sg, accepted host this (address (base account)) live sg).
Proof.
  unfold accepted, sweep.
  reclaim_cases host this account.
  all: do 2 eexists; split; [reflexivity|]; cbn.
  all: rewrite ?auditTrail_app, ?length_app; cbn.
  all: rewrite ?app_nil_r, ?Nat.add_0_r, ?Z.add_0_r.
  all: repeat (split; [first [reflexivity|eauto|lia]|]).
  all: repeat match goal with
         | H : (_ =? _) = true |- _ => apply Z.eqb_eq in H
         | H : (_ =? _) = false |- _ => apply Z.eqb_neq in H
         | H : String.eqb _ _ = true |- _ => apply String.eqb_eq in H
         | H : String.eqb _ _ = false |- _ => apply String.eqb_neq in H
         end.
  all: try (intros H; discriminate H).
  all: try (intros (live & sg' & Hv & Hi & Hnz & Ho & Hs);
            first [reflexivity|discriminate
                  |injection Hi as <-; first [contradiction|congruence]]).
  intros _. exists a, sg. auto.
Qed.

(** When an attempt succeeds. It succeeds exactly when the address is a
    public key, the ledger answers a funded account owned by the system
    program, and the network confirms the transfer of its balance to the
    treasury; in every other case it returns a failure, it does not raise. *)
Theorem reclaimRent_success_iff host this account w :
  ∃ result w',
    reclaimRent host this account w = (inr result, w') ∧
    (success result = true ↔
     ∃ live sg, accepted host this (address (base account)) live sg).
Proof.
  destruct (reclaimRent_spec host this account w)
    as (result & w' & Hrun & _ & _ & _ & _ & _ & _ & _ & _ & Hiff).
  eauto.
Qed.

Lemma reclaimRent_success_iff_witness :
  ∃ result w',
    reclaimRent Scenario.tenDaysLater
      (Scenario.reclaimer Custody.ledger 1000000)
      (Custody.record "Locked" 1500000) Scenario.world0 = (inr result, w') ∧
    success result = false ∧
    error result = Some "Transaction simulation failed".
Proof.
  destruct (reclaimRent_success_iff Scenario.tenDaysLater
              (Scenario.reclaimer Custody.ledger 1000000)
              (Custody.record "Locked" 1500000) Scenario.world0)
    as (result & w' & Hrun & Hiff).
  exists result, w'. split; [exact Hrun|].
  vm_compute in Hrun. injection Hrun as <- _. split; reflexivity.
Defined.

(** A result carries a signature exactly when it is a success and an error
    text exactly when it is a failure; its address is the one of the
    record and its timestamp the reading of the clock. *)
Theorem reclaimRent_signature_or_error host this account w :
  ∃ result w',
    reclaimRent host this account w = (inr result, w') ∧
    accountAddress result = address (base account) ∧
    timestamp result = Date_now host (ticks w) ∧
    (if success result
     then is_Some (signature result) ∧ error result = None
     else signature result = None ∧ is_Some (error result)).
Proof.
  destruct (reclaimRent_spec host this account w)
    as (result & w' & Hrun & Haddr & Ht & _ & _ & _ & _ & _ & Hsig & _).
  eauto 10.
Qed.

(** The audit trail. Each attempt adds exactly one line to the lines
    written by [logReclaimOperation]: the address, the estimate attempted,
    and the success flag, signature and error of the result it returns. *)
Theorem reclaimRent_audit host this account w :
  ∃ result w',
    reclaimRent host this account w = (inr result, w') ∧
    auditTrail (logs w') =
    auditTrail (logs w) ++
    [LogReclaim (address (base account)) (estimatedRent account)
       (success result) (signature result) (error result)].
Proof.
  destruct (reclaimRent_spec host this account w)
    as (result & w' & Hrun & _ & _ & _ & _ & _ & _ & Haudit & _).
  eauto.
Qed.

(** Scenario 4. An attempt on a funded account that another program owns
    fails with an error naming the owner; it reports 0, submits no transfer
    and leaves the lifetime total alone. *)
Theorem reclaimRent_foreign_owner host this account w live :
  PublicKey_valid host (address (base account)) = true →
  getAccountInfo (connection this) (address (base account)) =
    inr (Some live) →
  info_lamports live ≠ 0 →
  info_owner live ≠ SystemProgram_programId →
  ∃ w',
    reclaimRent host this account w =
    (inr {| success := false;
            accountAddress := address (base account);
            reclaimedAmount := 0;
            signature := None;
            error :=
              Some ("Account is owned by " +:+ info_owner live +:+
                    " — needs a program-specific close instruction.");
            timestamp := Date_now host (ticks w) |}, w') ∧
    confirmed w' = confirmed w ∧
    lifetimeReclaimed w' = lifetimeReclaimed w.
Proof.
  intros Hvalid Hinfo Hnz Hown.
  unfold reclaimRent. run. rewrite Hvalid. run.
  rewrite closeAccountAndReclaimRent_run. cbv zeta. rewrite Hinfo.
  apply Z.eqb_neq in Hnz. apply String.eqb_neq in Hown.
  rewrite Hnz, Hown. run.
  eexists. split; [reflexivity|]. split; reflexivity.
Qed.

Lemma reclaimRent_foreign_owner_witness :
  ∃ w',
    reclaimRent Scenario.tenDaysLater
      (Scenario.reclaimer Custody.ledger 1000000)
      (Custody.record "Vault" 2039280) Scenario.world0 =
    (inr {| success := false; accountAddress := "Vault";
            reclaimedAmount := 0; signature := None;
            error :=
              Some ("Account is owned by " +:+ Custody.tokenProgram +:+
                    " — needs a program-specific close instruction.");
            timestamp := Scenario.lastSeen * 1000 + 10 * Scenario.day |},
     w') ∧
    confirmed w' = [].
Proof.
  destruct (reclaimRent_foreign_owner Scenario.tenDaysLater
              (Scenario.reclaimer Custody.ledger 1000000)
              (Custody.record "Vault" 2039280) Scenario.world0 Custody.vault)
    as (w' & Hrun & Hconfirmed & _).
  - reflexivity.
  - reflexivity.
  - cbn. lia.
  - discriminate.
  - exists w'. split; [exact Hrun|exact Hconfirmed].
Defined.

(** ** Reclaim: the whole balance or nothing *)

(** An attempt never moves part of a balance. A failure confirms no
    transfer; a success confirms exactly one, from the account to the
    treasury, of the whole balance the ledger answered just before. *)
Theorem reclaimRent_all_or_nothing host this account w :
  ∃ result w',
    reclaimRent host this account w = (inr result, w') ∧
    (success result = false → confirmed w' = confirmed w) ∧
    (success result = true →
     ∃ live,
       getAccountInfo (connection this) (address (base account)) =
         inr (Some live) ∧
       confirmed w' =
         confirmed w ++
         [{| fromPubkey := address (base account);
             toPubkey := treasury this;
             transferLamports := info_lamports live |}]).
Proof.
  destruct (reclaimRent_outcome host this account w)
    as (result & w' & Hrun & Hfail & Hok).
  exists result, w'. split; [exact Hrun|]. split.
  - intros Hno. now destruct (Hfail Hno) as (_ & _ & Hconf).
  - intros Hyes. now destruct (Hok Hyes) as (_ & _ & Hlive).
Qed.

Lemma reclaimRent_all_or_nothing_witness :
  ∃ result w',
    reclaimRent Scenario.tenDaysLater
      (Scenario.reclaimer Custody.ledger 1000000)
      (Custody.record "Purse" 1) Scenario.world0 = (inr result, w') ∧
    success result = true ∧
    confirmed w' =
      [{| fromPubkey := "Purse"; toPubkey := "Treasury";
          transferLamports := 1500000 |}].
Proof.
  destruct (reclaimRent_all_or_nothing Scenario.tenDaysLater
              (Scenario.reclaimer Custody.ledger 1000000)
              (Custody.record "Purse" 1) Scenario.world0)
    as (result & w' & Hrun & _ & Hok).
  exists result, w'. split; [exact Hrun|].
  assert (success result = true) as Hsuccess.
  { vm_compute in Hrun. injection Hrun as <- _. reflexivity. }
  destruct (Hok Hsuccess) as (live & Hlive & Htx).
  split; [exact Hsuccess|].
  vm_compute in Hlive. injection Hlive as <-. exact Htx.
Defined.

(** ** Evaluation followed by an attempt, the ledger unchanged *)

Lemma collected_justified host this accounts w r :
  r ∈ collected host this accounts w →
  ∃ acct w',
    acct ∈ accounts ∧
    r ∈ classify (config this) acct
          (accountResponse host (connection this) (address acct))
          (signatureResponse host (connection this) (address acct))
          (Date_now host (ticks w')).
Proof.
  intros Hr. apply collected_elem in Hr as (acct & w' & Hin & Hr).
  rewrite verdict_classify in Hr. eauto.
Qed.

(** An attempt on the record of an account that the ledger does not answer
    as funded is refused. *)
Lemma unfunded_refused host this account w :
  (∀ live,
     accountResponse host (connection this) (address (base account)) =
       inr (Some live) →
     info_lamports live = 0) →
  ∃ result w',
    reclaimRent host this account w = (inr result, w') ∧
    success result = false ∧
    reclaimedAmount result = 0 ∧
    confirmed w' = confirmed w.
Proof.
  intros Hzero.
  destruct (reclaimRent_spec host this account w)
    as (result & w' & Hrun & _ & _ & _ & _ & _ & _ & _ & _ & Hiff).
  destruct (reclaimRent_outcome host this account w)
    as (result' & w'' & Hrun' & Hfail & _).
  rewrite Hrun in Hrun'. injection Hrun' as <- <-.
  exists result, w'. split; [exact Hrun|].
  assert (success result = false) as Hno.
  { destruct (success result) eqn:Hs; [|reflexivity].
    destruct Hiff as [Hacc _].
    destruct (Hacc eq_refl) as (live & sg & Hv & Hi & Hnz & _).
    assert (accountResponse host (connection this) (address (base account)) =
            inr (Some live)) as Hresp
      by (unfold accountResponse; now rewrite Hv).
    apply Hzero in Hresp. contradiction. }
  destruct (Hfail Hno) as (Hamount & _ & Hconf). auto.
Qed.

(** Rule A cannot be collected. A record that evaluation returns as closed
    is refused by an attempt made against the same ledger: the account is
    still absent, or empty of lamports, or still cannot be fetched. Nothing
    is transferred. *)
Theorem closed_records_never_reclaimed host this accounts w rs r w2 :
  (identifyReclaimableAccounts host this accounts w).1 = inr rs →
  r ∈ rs →
  reason r = ACCOUNT_CLOSED →
  ∃ result w3,
    reclaimRent host this r w2 = (inr result, w3) ∧
    success result = false ∧
    reclaimedAmount result = 0 ∧
    confirmed w3 = confirmed w2.
Proof.
  intros Hrun Hr Hclosed.
  rewrite identifyReclaimableAccounts_returns in Hrun. injection Hrun as <-.
  apply collected_justified in Hr as (acct & w' & _ & Hr).
  apply classify_justified in Hr. rewrite Hclosed in Hr.
  destruct Hr as (-> & _ & Hzero).
  now apply unfunded_refused.
Qed.

Lemma closed_records_never_reclaimed_witness :
  ∃ result w3,
    reclaimRent Scenario.tenDaysLater
      (Scenario.reclaimer Scenario.ledger 1000000)
      {| base := Scenario.sponsored "Gone" 2000000 None;
         reason := ACCOUNT_CLOSED; estimatedRent := 2000000 |}
      Scenario.world0 = (inr result, w3) ∧
    success result = false ∧
    reclaimedAmount result = 0 ∧
    confirmed w3 = [].
Proof.
  apply (closed_records_never_reclaimed Scenario.tenDaysLater
           (Scenario.reclaimer Scenario.ledger 1000000)
           [Scenario.sponsored "Gone" 2000000 None] Scenario.world0
           [{| base := Scenario.sponsored "Gone" 2000000 None;
               reason := ACCOUNT_CLOSED; estimatedRent := 2000000 |}]).
  - vm_compute. reflexivity.
  - apply list_elem_of_singleton. reflexivity.
  - reflexivity.
Defined.

(** On a record fresh from evaluation the report is exact. When an attempt
    on a record that evaluation has just returned succeeds against the same
    ledger, the amount it reports, and adds to the lifetime total, is the
    amount of the transfer it has confirmed. *)
Theorem fresh_records_report_moved_amount host this accounts w rs r w2 :
  (identifyReclaimableAccounts host this accounts w).1 = inr rs →
  r ∈ rs →
  ∃ result w3,
    reclaimRent host this r w2 = (inr result, w3) ∧
    (success result = true →
     ∃ tx, confirmed w3 = confirmed w2 ++ [tx] ∧
           fromPubkey tx = address (base r) ∧
           toPubkey tx = treasury this ∧
           transferLamports tx = reclaimedAmount result ∧
           lifetimeReclaimed w3 = lifetimeReclaimed w2 + transferLamports tx).
Proof.
  intros Hrun Hr.
  rewrite identifyReclaimableAccounts_returns in Hrun. injection Hrun as <-.
  apply collected_justified in Hr as (acct & w' & _ & Hr).
  destruct (reclaimRent_outcome host this r w2)
    as (result & w3 & Hrun3 & _ & Hok).
  exists result, w3. split; [exact Hrun3|]. intros Hsuccess.
  destruct (Hok Hsuccess) as (Hamount & Hlife & live & Hlive & Hconf).
  eexists. split; [exact Hconf|]. cbn.
  split; [reflexivity|]. split; [reflexivity|].
  assert (estimatedRent r = info_lamports live) as Hest.
  { apply classify_justified in Hr. destruct (reason r).
    - exfalso. destruct Hr as (-> & _ & Hzero).
      destruct (unfunded_refused host this (closedRecord acct) w2 Hzero)
        as (res & w4 & Hrun4 & Hno & _).
      congruence.
    - destruct Hr as (live' & Hresp & -> & _).
      apply accountResponse_inr in Hresp. cbn in Hlive |- *.
      rewrite Hresp in Hlive. now injection Hlive as <-.
    - destruct Hr as (live' & Hresp & -> & _).
      apply accountResponse_inr in Hresp. cbn in Hlive |- *.
      rewrite Hresp in Hlive. now injection Hlive as <-. }
  rewrite Hamount, Hlife, Hest. auto.
Qed.

(** Recorded with 2,000,000 lamports at discovery, the account holds
    5,000,000: evaluation estimates 5,000,000 and the attempt moves and
    reports 5,000,000. *)
Lemma fresh_records_report_moved_amount_witness :
  ∃ result w3,
    reclaimRent Scenario.tenDaysLater
      (Scenario.reclaimer Scenario.ledger 1000000)
      {| base := Scenario.sponsored "Grown" 5000000 None;
         reason := ACCOUNT_EMPTY; estimatedRent := 5000000 |}
      Scenario.world0 = (inr result, w3) ∧
    reclaimedAmount result = 5000000 ∧
    ∃ tx, confirmed w3 = [tx] ∧ transferLamports tx = 5000000.
Proof.
  destruct (fresh_records_report_moved_amount Scenario.tenDaysLater
              (Scenario.reclaimer Scenario.ledger 1000000)
              [Scenario.sponsored "Grown" 2000000 None] Scenario.world0
              [{| base := Scenario.sponsored "Grown" 5000000 None;
                  reason := ACCOUNT_EMPTY; estimatedRent := 5000000 |}]
              {| base := Scenario.sponsored "Grown" 5000000 None;
                 reason := ACCOUNT_EMPTY; estimatedRent := 5000000 |}
              Scenario.world0)
    as (result & w3 & Hrun & Hok).
  - vm_compute. reflexivity.
  - apply list_elem_of_singleton. reflexivity.
  - exists result, w3. split; [exact Hrun|].
    assert (success result = true ∧ reclaimedAmount result = 5000000)
      as [Hsuccess Hamount].
    { vm_compute in Hrun. injection Hrun as <- _. split; reflexivity. }
    split; [exact Hamount|].
    destruct (Hok Hsuccess) as (tx & Hconf & _ & _ & Htx & _).
    exists tx. split; [exact Hconf|]. now rewrite Htx.
Defined.

(** ** Reclaim: a batch *)

Lemma successes_snoc results r :
  successes (results ++ [r]) =
  (successes results + (if success r then 1 else 0))%nat.
Proof.
  unfold successes. rewrite List.filter_app, length_app. cbn.
  destruct (success r); reflexivity.
Qed.

Lemma successes_cons r results :
  successes (r :: results) =
  ((if success r then 1 else 0) + successes results)%nat.
Proof. unfold successes. cbn. destruct (success r); reflexivity. Qed.

Lemma reclaimEach_spec host this accounts :
  ∀ results w,
    ∃ new w',
      reclaimEach host this accounts results w = (inr (results ++ new), w') ∧
      accountAddress <$> new = (fun a => address (base a)) <$> accounts ∧
      ticks w' = (ticks w + length accounts)%nat ∧
      lastScanTime w' = lastScanTime w ∧
      lifetimeReclaimed w' = lifetimeReclaimed w + sumReclaimed new ∧
      length (confirmed w') = (length (confirmed w) + successes new)%nat ∧
      auditTrail (logs w') =
        auditTrail (logs w) ++ zip_with auditEntry accounts new.
Proof.
  induction accounts as [|account rest IH]; intros results w.
  - exists [], w. cbn. rewrite !app_nil_r.
    repeat split; try reflexivity; lia.
  - cbn [reclaimEach]. unfold mbind, promise_bind, await.
    destruct (reclaimRent_spec host this account w)
      as (r & w1 & -> & Haddr & _ & Htick & Hscan & Hlife & Hconf & Haudit & _).
    destruct (IH (results ++ [r]) w1)
      as (new & w' & -> & Haddrs & Hticks & Hscans & Hlifes & Hconfs & Haudits).
    exists (r :: new), w'.
    split; [now rewrite <- app_assoc|].
    split; [cbn; now rewrite Haddr, Haddrs|].
    split; [cbn; lia|].
    split; [congruence|].
    split; [unfold sumReclaimed in *; cbn; lia|].
    split; [rewrite successes_cons; destruct (success r); lia|].
    cbn. rewrite Haudits, Haudit, <- app_assoc. reflexivity.
Qed.

Lemma reclaimAll_spec host this accounts w :
  ∃ results w',
    reclaimAll host this accounts w = (inr results, w') ∧
    accountAddress <$> results = (fun a => address (base a)) <$> accounts ∧
    ticks w' = (ticks w + length accounts)%nat ∧
    lastScanTime w' = lastScanTime w ∧
    lifetimeReclaimed w' = lifetimeReclaimed w + sumReclaimed results ∧
    length (confirmed w') = (length (confirmed w) + successes results)%nat ∧
    auditTrail (logs w') =
      auditTrail (logs w) ++ zip_with auditEntry accounts results.
Proof.
  unfold reclaimAll, mbind, promise_bind, await. cbn.
  destruct (reclaimEach_spec host this accounts []
              (logged (Log info
                 ("Batch reclaim starting — " +:+ pretty (length accounts)
                  +:+ " accounts")) w))
    as (results & w1 & -> & Haddrs & Hticks & Hscan & Hlife & Hconf & Haudit).
  cbn. do 2 eexists. split; [reflexivity|]. split; [exact Haddrs|].
  cbn [logged logs ticks lastScanTime lifetimeReclaimed confirmed] in *.
  rewrite auditTrail_app in Haudit |- *. rewrite Haudit. cbn.
  rewrite !app_nil_r. auto.
Qed.

(** One result per account. A batch never raises; it returns one result
    for each record, in the order of the input, and leaves in the audit
    trail one line for each, in the same order. *)
Theorem reclaimAll_one_result_each host this accounts w :
  ∃ results w',
    reclaimAll host this accounts w = (inr results, w') ∧
    accountAddress <$> results = (fun a => address (base a)) <$> accounts ∧
    auditTrail (logs w') =
      auditTrail (logs w) ++ zip_with auditEntry accounts results.
Proof.
  destruct (reclaimAll_spec host this accounts w)
    as (results & w' & Hrun & Haddrs & _ & _ & _ & _ & Haudit).
  eauto.
Qed.

Lemma addedInTurn_sum start results :
  addedInTurn start results = start + sumReclaimed results.
Proof.
  unfold addedInTurn, sumReclaimed. revert start.
  induction results as [|r results IH]; intros start; cbn; [lia|].
  rewrite IH. lia.
Qed.

(** The totals of a batch. The lifetime total ends as the amounts the
    results report make it when they are added to it one after the other,
    in the order of the attempts; one transfer is confirmed for each
    successful result, and the time of the last scan is not touched. *)
Theorem reclaimAll_totals host this accounts w :
  ∃ results w',
    reclaimAll host this accounts w = (inr results, w') ∧
    lifetimeReclaimed w' = addedInTurn (lifetimeReclaimed w) results ∧
    length (confirmed w') = (length (confirmed w) + successes results)%nat ∧
    lastScanTime w' = lastScanTime w.
Proof.
  destruct (reclaimAll_spec host this accounts w)
    as (results & w' & Hrun & _ & Hticks & Hscan & Hlife & Hconf & _).
  exists results, w'. rewrite addedInTurn_sum. auto.
Qed.

(** ** Discovery: order and content of the records *)

Lemma firstOccurrences_elem a l : a ∈ firstOccurrences l ↔ a ∈ l.
Proof.
  induction l as [|x rest IH]; cbn; [reflexivity|].
  rewrite !elem_of_cons, list_elem_of_filter, IH.
  destruct (decide (a = x)); tauto.
Qed.

Lemma firstOccurrences_app l1 l2 :
  firstOccurrences (l1 ++ l2) =
  firstOccurrences l1 ++ filter (fun a => a ∉ l1) (firstOccurrences l2).
Proof.
  induction l1 as [|x l1 IH]; cbn.
  - induction (firstOccurrences l2) as [|y l IHl]; [reflexivity|].
    rewrite filter_cons_True by apply not_elem_of_nil. now rewrite <- IHl.
  - rewrite IH, filter_app, list_filter_filter. do 2 f_equal.
    apply list_filter_iff. intros a. rewrite elem_of_cons. tauto.
Qed.

Lemma fetchAccountInfo_fetched host c addr w :
  ∃ w1, Solana.fetchAccountInfo host c addr w = (inr (fetched host c addr), w1).
Proof.
  rewrite fetchAccountInfo_run. unfold fetched.
  destruct (accountResponse host c addr); eauto.
Qed.

Section DiscoverMore.

Variable host : Host.
Variable this : RentReclaimer.

Lemma collectKeys_records sigInfo keys :
  ∀ seen result w,
    ∃ seen' new w',
      collectKeys host this sigInfo keys seen result w =
        (inr (seen', result ++ new), w') ∧
      (∀ a, a ∈ seen' ↔ a ∈ seen ∨ a ∈ keys) ∧
      address <$> new =
        filter (fun a => a ∉ seen) (firstOccurrences keys) ∧
      Forall (fun r => r = snapshot sigInfo (address r)
                            (fetched host (connection this) (address r)))
        new ∧
      observes 0 w w'.
Proof.
  induction keys as [|addr rest IH]; intros seen result w.
  - exists seen, [], w. rewrite app_nil_r.
    split; [reflexivity|].
    split; [intros a; rewrite elem_of_nil; tauto|].
    split; [reflexivity|]. split; [constructor|apply observes_refl].
  - destruct (decide (addr ∈ seen)) as [Hseen|Hfresh].
    { cbn [collectKeys]. destruct (decide (addr ∈ seen)); [|contradiction].
      destruct (IH seen result w)
        as (seen' & new & w' & Hrun & Hseen' & Haddrs & Hrec & Hobs).
      exists seen', new, w'. split; [exact Hrun|].
      split.
      - intros a. rewrite Hseen', elem_of_cons.
        split; [tauto|]. intros [H|[->|H]]; auto.
      - split; [|split; assumption].
        rewrite Haddrs. cbn [firstOccurrences].
        rewrite filter_cons_False by tauto.
        symmetry. apply list_filter_filter_l. intros a Ha ->. contradiction. }
    rewrite (collectKeys_fresh _ _ _ _ _ _ _ _ Hfresh).
    destruct (fetchAccountInfo_fetched host (connection this) addr w)
      as (w1 & Hfetch).
    pose proof (fetchAccountInfo_observes host (connection this) addr w)
      as Hobs1.
    rewrite Hfetch in Hobs1 |- *. cbn [snd] in Hobs1.
    set (rec := snapshot sigInfo addr (fetched host (connection this) addr)).
    destruct (IH (seen ∪ {[addr]}) (result ++ [rec]) w1)
      as (seen' & new & w' & Hrun & Hseen' & Haddrs & Hrec & Hobs).
    assert (address rec = addr) as Haddr
      by (unfold rec; destruct (fetched _ _ _); reflexivity).
    exists seen', (rec :: new), w'.
    split; [now rewrite Hrun, <- app_assoc|].
    split.
    { intros a. rewrite Hseen', elem_of_union, elem_of_singleton, elem_of_cons.
      tauto. }
    split.
    { cbn [firstOccurrences]. rewrite filter_cons_True by exact Hfresh.
      rewrite fmap_cons, Haddr, Haddrs. f_equal.
      rewrite list_filter_filter. apply list_filter_iff.
      intros a. rewrite elem_of_union, elem_of_singleton. tauto. }
    split.
    { constructor; [|exact Hrec]. now rewrite Haddr. }
    apply (observes_trans 0 0 w w1 w'); assumption.
Qed.

Lemma scanSignatures_records signatures :
  ∀ seen result w,
    ∃ new w',
      scanSignatures host this signatures seen result w =
        (inr (result ++ new), w') ∧
      address <$> new =
        filter (fun a => a ∉ seen)
          (firstOccurrences (parsedKeys (connection this) signatures)) ∧
      Forall (fun r =>
                ∃ sigInfo,
                  firstSeenIn (connection this) signatures (address r)
                    sigInfo ∧
                  r = snapshot sigInfo (address r)
                        (fetched host (connection this) (address r)))
        new ∧
      observes 0 w w'.
Proof.
  induction signatures as [|sigInfo rest IH]; intros seen result w.
  - exists [], w. rewrite app_nil_r.
    split; [reflexivity|]. split; [reflexivity|].
    split; [constructor|apply observes_refl].
  - rewrite scanSignatures_step. unfold parsedKeys. cbn [flat_map].
    fold (parsedKeys (connection this) rest).
    assert (∀ new : list SponsoredAccount,
      Forall (fun r =>
                ∃ s, firstSeenIn (connection this) rest (address r) s ∧
                     r = snapshot s (address r)
                           (fetched host (connection this) (address r))) new →
      (∀ r, r ∈ new →
            address r ∉ parsedKeys (connection this) [sigInfo]) →
      Forall (fun r =>
                ∃ s, firstSeenIn (connection this) (sigInfo :: rest)
                       (address r) s ∧
                     r = snapshot s (address r)
                           (fetched host (connection this) (address r))) new)
      as Hlater.
    { intros new Hall Hnot. apply Forall_forall. intros r Hr.
      rewrite Forall_forall in Hall.
      destruct (Hall r Hr) as (s & (pre & post & keys & -> & Hpre & Hk) & Hsnap).
      exists s. split; [|exact Hsnap].
      exists (sigInfo :: pre), post, keys. split; [reflexivity|].
      split; [|exact Hk].
      change (sigInfo :: pre) with ([sigInfo] ++ pre).
      unfold parsedKeys in *. rewrite flat_map_app, elem_of_app.
      intros [H|H]; [exact (Hnot r Hr H)|contradiction]. }
    destruct (getParsedTransaction (connection this) (sig_signature sigInfo))
      as [e|[keys|]] eqn:Htx.
    1, 3: destruct (IH seen result w) as (new & w' & Hrun & Haddrs & Hrec & Hobs);
          exists new, w'; (split; [exact Hrun|]); (split; [exact Haddrs|]);
          (split; [|exact Hobs]); apply (Hlater new Hrec);
          intros r _; unfold parsedKeys; cbn; rewrite Htx; cbn;
          apply not_elem_of_nil.
    destruct (collectKeys_records sigInfo keys seen result w)
      as (seen1 & new1 & w1 & -> & Hseen1 & Haddrs1 & Hrec1 & Hobs1).
    destruct (IH seen1 (result ++ new1) w1)
      as (new2 & w2 & -> & Haddrs2 & Hrec2 & Hobs2).
    exists (new1 ++ new2), w2.
    split; [now rewrite app_assoc|].
    split.
    { rewrite fmap_app, Haddrs1, Haddrs2, firstOccurrences_app, filter_app.
      f_equal. rewrite list_filter_filter. apply list_filter_iff.
      intros a. rewrite Hseen1. tauto. }
    split; [|apply (observes_trans 0 0 w w1 w2); assumption].
    apply Forall_app. split.
    + apply Forall_forall. intros r Hr.
      rewrite Forall_forall in Hrec1.
      exists sigInfo. split; [|exact (Hrec1 r Hr)].
      exists [], rest, keys. split; [reflexivity|].
      split; [apply not_elem_of_nil|]. split; [exact Htx|].
      apply (list_elem_of_fmap_2 address) in Hr. rewrite Haddrs1 in Hr.
      apply list_elem_of_filter in Hr as [_ Hr].
      apply firstOccurrences_elem. exact Hr.
    + apply (Hlater new2 Hrec2). intros r Hr.
      apply (list_elem_of_fmap_2 address) in Hr. rewrite Haddrs2 in Hr.
      apply list_elem_of_filter in Hr as [Hr _].
      unfold parsedKeys. cbn. rewrite Htx, app_nil_r.
      intros Hk. apply Hr, Hseen1. now right.
Qed.

End DiscoverMore.

Lemma filter_all {A} (P : A → Prop) `{!∀ x, Decision (P x)} (l : list A) :
  (∀ x, P x) → filter P l = l.
Proof.
  intros HP. induction l as [|x l IH]; [reflexivity|].
  rewrite filter_cons_True by apply HP. now rewrite IH.
Qed.

(** Everything discovery guarantees, in one statement. *)
Lemma getSponsoredAccounts_spec host this w :
  ∃ rs w',
    getSponsoredAccounts host this w = (inr rs, w') ∧
    observes 0 w w' ∧
    (∀ e, getSignaturesForAddress (connection this) (feePayer this) 100 =
            inl e → rs = []) ∧
    ∀ signatures,
      getSignaturesForAddress (connection this) (feePayer this) 100 =
        inr signatures →
      address <$> rs =
        firstOccurrences (parsedKeys (connection this) signatures) ∧
      Forall (fun r =>
                ∃ sigInfo,
                  firstSeenIn (connection this) signatures (address r)
                    sigInfo ∧
                  r = snapshot sigInfo (address r)
                        (fetched host (connection this) (address r)))
        rs.
Proof.
  unfold getSponsoredAccounts. run.
  destruct (getSignaturesForAddress (connection this) (feePayer this) 100)
    as [e|signatures].
  - do 2 eexists. split; [reflexivity|]. split.
    + apply (observes_trans 0 0 w
               (logged (Log info "Fetching sponsored accounts …") w));
        now apply observes_logged.
    + split; [reflexivity|discriminate].
  - destruct (scanSignatures_records host this signatures ∅ []
                (logged (Log info "Fetching sponsored accounts …") w))
      as (rs & w1 & -> & Haddrs & Hrec & Hobs).
    cbn. do 2 eexists. split; [reflexivity|]. split.
    + apply (observes_trans 0 0 w
               (logged (Log info "Fetching sponsored accounts …") w));
        [now apply observes_logged|].
      apply (observes_trans 0 0 _ w1); [exact Hobs|].
      now apply observes_logged.
    + split; [discriminate|]. intros sigs [= <-].
      rewrite filter_all in Haddrs by (intros a; apply not_elem_of_empty).
      auto.
Qed.

(** First come, first listed. Discovery never raises. It returns the
    account keys of the transactions it could fetch in the order it met
    them, each address once, at its first occurrence; a transaction that
    cannot be fetched or has no keys contributes nothing. *)
Theorem getSponsoredAccounts_in_order host this w signatures :
  getSignaturesForAddress (connection this) (feePayer this) 100 =
    inr signatures →
  ∃ rs w',
    getSponsoredAccounts host this w = (inr rs, w') ∧
    address <$> rs =
      firstOccurrences (parsedKeys (connection this) signatures).
Proof.
  intros Hsigs.
  destruct (getSponsoredAccounts_spec host this w)
    as (rs & w' & Hrun & _ & _ & Hok).
  destruct (Hok signatures Hsigs) as [Haddrs _]. eauto.
Qed.

Lemma getSponsoredAccounts_in_order_witness :
  ∃ rs w',
    getSponsoredAccounts Scenario.tenDaysLater
      (Scenario.reclaimer Scenario.ledger 1000000) Scenario.world0 =
      (inr rs, w') ∧
    address <$> rs = ["Payer"; "Flaky"; "Idle"; "Gone"].
Proof.
  apply (getSponsoredAccounts_in_order Scenario.tenDaysLater
           (Scenario.reclaimer Scenario.ledger 1000000) Scenario.world0
           [ {| sig_signature := "sig1";
                blockTime := Some Scenario.lastSeen |};
             {| sig_signature := "sig2";
                blockTime := Some Scenario.lastSeen |} ]).
  reflexivity.
Defined.

(** What a record holds. Every record discovery returns carries the
    balance, owner, executable flag and payload length the ledger answered
    for its address, or those of an absent account when it answered none;
    its [lastActivity] is the block time of the first signature of the
    window whose transaction names the address. *)
Theorem getSponsoredAccounts_records host this w signatures :
  getSignaturesForAddress (connection this) (feePayer this) 100 =
    inr signatures →
  ∃ rs w',
    getSponsoredAccounts host this w = (inr rs, w') ∧
    ∀ r, r ∈ rs →
      ∃ sigInfo,
        firstSeenIn (connection this) signatures (address r) sigInfo ∧
        lastActivity r = blockTime sigInfo ∧
        match accountResponse host (connection this) (address r) with
        | inr (Some a) =>
            lamports r = info_lamports a ∧ owner r = info_owner a ∧
            executable r = info_executable a ∧
            dataLength r = Z.of_nat (length (info_data a))
        | _ => isGoneRecord r
        end.
Proof.
  intros Hsigs.
  destruct (getSponsoredAccounts_spec host this w)
    as (rs & w' & Hrun & _ & _ & Hok).
  destruct (Hok signatures Hsigs) as [_ Hrec].
  exists rs, w'. split; [exact Hrun|]. intros r Hr.
  rewrite Forall_forall in Hrec.
  destruct (Hrec r Hr) as (sigInfo & Hfirst & Hsnap).
  exists sigInfo. split; [exact Hfirst|].
  unfold fetched in Hsnap.
  destruct (accountResponse host (connection this) (address r))
    as [e|[a|]]; rewrite Hsnap; cbn; repeat split.
Qed.

Lemma getSponsoredAccounts_records_witness :
  ∃ rs w',
    getSponsoredAccounts Scenario.tenDaysLater
      (Scenario.reclaimer Scenario.ledger 1000000) Scenario.world0 =
      (inr rs, w') ∧
    Forall (fun r => lastActivity r = Some Scenario.lastSeen) rs ∧
    lamports <$> rs = [0; 0; 3000000; 0].
Proof.
  destruct (getSponsoredAccounts_records Scenario.tenDaysLater
              (Scenario.reclaimer Scenario.ledger 1000000) Scenario.world0
              [ {| sig_signature := "sig1";
                   blockTime := Some Scenario.lastSeen |};
                {| sig_signature := "sig2";
                   blockTime := Some Scenario.lastSeen |} ] eq_refl)
    as (rs & w' & Hrun & Hall).
  exists rs, w'. split; [exact Hrun|]. split.
  - apply Forall_forall. intros r Hr.
    destruct (Hall r Hr) as (sigInfo & (pre & post & keys & Hsplit & _) & -> & _).
    assert (sigInfo ∈ pre ++ sigInfo :: post) as Hin
      by (apply elem_of_app; right; left).
    rewrite <- Hsplit in Hin.
    apply elem_of_cons in Hin as [->|Hin]; [reflexivity|].
    apply list_elem_of_singleton in Hin as ->. reflexivity.
  - vm_compute in Hrun. injection Hrun as <- _. reflexivity.
Defined.

(** Discovery sends nothing, credits nothing and does not read the clock;
    it only adds lines to the log, none of them a reclaim line. *)
Theorem getSponsoredAccounts_only_observes host this w :
  observes 0 w (getSponsoredAccounts host this w).2.
Proof.
  destruct (getSponsoredAccounts_spec host this w)
    as (rs & w' & -> & Hobs & _).
  exact Hobs.
Qed.

(** ** The full cycle *)

(** Everything a cycle guarantees, in one statement. *)
Lemma runScanAndReclaim_spec host this w :
  ∃ scanned reclaimable results w',
    runScanAndReclaim host this w =
      (inr (scanned, reclaimable, results), w') ∧
    (∀ e, getSignaturesForAddress (connection this) (feePayer this) 100 =
            inl e → scanned = []) ∧
    (∀ signatures,
       getSignaturesForAddress (connection this) (feePayer this) 100 =
         inr signatures →
       address <$> scanned =
         firstOccurrences (parsedKeys (connection this) signatures)) ∧
    (fun r => address (base r)) <$> reclaimable
      `sublist_of` address <$> scanned ∧
    accountAddress <$> results =
      (fun r => address (base r)) <$> reclaimable ∧
    lifetimeReclaimed w' = lifetimeReclaimed w + sumReclaimed results ∧
    length (confirmed w') = (length (confirmed w) + successes results)%nat ∧
    auditTrail (logs w') =
      auditTrail (logs w) ++ zip_with auditEntry reclaimable results ∧
    (ticks w ≤ ticks w' - 1 ≤
       ticks w + length scanned + length reclaimable)%nat ∧
    lastScanTime w' = Date_now host (ticks w' - 1).
Proof.
  unfold runScanAndReclaim, mbind, promise_bind, await.
  unfold logger at 1. cbn [fst snd].
  set (w0 := logged (Log info "=== Scan-and-Reclaim cycle started ===") w).
  assert (observes 0 w w0) as H0 by now apply observes_logged.
  destruct (getSponsoredAccounts_spec host this w0)
    as (scanned & w1 & -> & H1 & Hfail & Hok).
  pose proof (identifyReclaimableAccounts_observes host this scanned w1) as H2.
  pose proof (collected_keeps_order host this scanned (evaluationStarted w1))
    as Hsub.
  rewrite identifyReclaimableAccounts_run in H2 |- *. cbv zeta in H2 |- *.
  cbn [snd] in H2.
  set (reclaimable := collected host this scanned (evaluationStarted w1)) in *.
  set (w2 := logged _ (afterAll host this scanned (evaluationStarted w1))) in *.
  unfold logScanResults, logger at 1.
  set (w3 := logged _ w2).
  assert (observes 0 w2 w3) as H3 by now apply observes_logged.
  destruct (reclaimAll_spec host this reclaimable w3)
    as (results & w4 & -> & Haddrs & Hticks & Hscan & Hlife & Hconf & Haudit).
  unfold now, setLastScanTime, logger, resolve. cbn [fst snd].
  do 4 eexists. split; [reflexivity|].
  destruct H0 as (Hc0 & Hl0 & Hs0 & _ & Ha0 & Ht0).
  destruct H1 as (Hc1 & Hl1 & Hs1 & _ & Ha1 & Ht1).
  destruct H2 as (Hc2 & Hl2 & Hs2 & _ & Ha2 & Ht2).
  destruct H3 as (Hc3 & Hl3 & Hs3 & _ & Ha3 & Ht3).
  split; [exact Hfail|].
  split; [intros sigs Hs; now destruct (Hok sigs Hs)|].
  split; [exact Hsub|]. split; [exact Haddrs|].
  cbn [logged scannedAt ticked logs ticks lastScanTime lifetimeReclaimed
       confirmed].
  split; [now rewrite Hlife, Hl3, Hl2, Hl1, Hl0|].
  split; [now rewrite Hconf, Hc3, Hc2, Hc1, Hc0|].
  split.
  { rewrite auditTrail_app, Haudit, Ha3, Ha2, Ha1, Ha0.
    apply app_nil_r. }
  assert (length reclaimable ≤ length scanned)%nat as Hlen.
  { apply sublist_length in Hsub. now rewrite !length_fmap in Hsub. }
  split; [lia|]. f_equal. lia.
Qed.

(** A cycle never raises. It returns one result for each reclaimable
    record, the records being taken in order among the scanned accounts;
    the lifetime total ends as the amounts the results report make it when
    added to it one after the other, in the order of the attempts, one
    transfer is confirmed per success, the audit trail gains one line per
    attempt, and the time of the last scan becomes the reading of the clock
    taken after the last attempt. *)
Theorem runScanAndReclaim_returns host this w :
  ∃ scanned reclaimable results w',
    runScanAndReclaim host this w =
      (inr (scanned, reclaimable, results), w') ∧
    (fun r => address (base r)) <$> reclaimable
      `sublist_of` address <$> scanned ∧
    accountAddress <$> results =
      (fun r => address (base r)) <$> reclaimable ∧
    lifetimeReclaimed w' = addedInTurn (lifetimeReclaimed w) results ∧
    length (confirmed w') = (length (confirmed w) + successes results)%nat ∧
    auditTrail (logs w') =
      auditTrail (logs w) ++ zip_with auditEntry reclaimable results ∧
    (ticks w ≤ ticks w' - 1)%nat ∧
    lastScanTime w' = Date_now host (ticks w' - 1).
Proof.
  destruct (runScanAndReclaim_spec host this w)
    as (scanned & reclaimable & results & w' & Hrun & _ & _ & Hsub & Haddrs
        & Hlife & Hconf & Haudit & Hticks & Hscan).
  exists scanned, reclaimable, results, w'. rewrite addedInTurn_sum.
  repeat split; try assumption. lia.
Qed.

(** Scenario 5. When discovery finds no account, because the history query
    fails or because no transaction of the window names any, the cycle
    returns three empty lists; it attempts nothing, so that nothing is
    transferred, credited or written to the audit trail, and it still
    stamps the time of the scan. [getStats] then shows zero counts. *)
Theorem runScanAndReclaim_nothing_discovered host this w :
  (∀ signatures,
     getSignaturesForAddress (connection this) (feePayer this) 100 =
       inr signatures →
     parsedKeys (connection this) signatures = []) →
  ∃ w',
    runScanAndReclaim host this w = (inr ([], [], []), w') ∧
    confirmed w' = confirmed w ∧
    lifetimeReclaimed w' = lifetimeReclaimed w ∧
    auditTrail (logs w') = auditTrail (logs w) ∧
    lastScanTime w' = Date_now host (ticks w) ∧
    getStats w' [] [] =
      {| totalAccountsMonitored := 0; totalRentLocked := 0;
         totalRentReclaimed := lifetimeReclaimed w;
         reclaimableAccounts := 0; estimatedReclaimable := 0;
         lastScanTimeStat := Date_now host (ticks w) |}.
Proof.
  intros Hnone.
  unfold runScanAndReclaim, mbind, promise_bind, await.
  unfold logger at 1. cbn [fst snd].
  set (w0 := logged (Log info "=== Scan-and-Reclaim cycle started ===") w).
  assert (observes 0 w w0) as H0 by now apply observes_logged.
  destruct (getSponsoredAccounts_spec host this w0)
    as (scanned & w1 & -> & H1 & Hfail & Hok).
  assert (scanned = []) as ->.
  { destruct (getSignaturesForAddress (connection this) (feePayer this) 100)
      as [e|signatures] eqn:Hsigs.
    - now apply (Hfail e).
    - destruct (Hok signatures eq_refl) as [Haddrs _].
      rewrite (Hnone signatures eq_refl) in Haddrs. cbn in Haddrs.
      now apply fmap_nil_inv in Haddrs. }
  destruct H0 as (Hc0 & Hl0 & Hs0 & _ & Ha0 & Ht0).
  destruct H1 as (Hc1 & Hl1 & Hs1 & _ & Ha1 & Ht1).
  run. eexists. split; [reflexivity|]. cbn.
  unfold auditTrail in *. rewrite !List.filter_app. cbn.
  rewrite !app_nil_r.
  assert (ticks w1 = ticks w) as -> by lia.
  repeat split; try congruence.
  unfold getStats. cbn. now rewrite Hl1, Hl0.
Qed.

Lemma runScanAndReclaim_nothing_discovered_witness :
  ∃ w',
    runScanAndReclaim Scenario.tenDaysLater
      (Scenario.reclaimer Scenario.offline 1000000) Scenario.world0 =
      (inr ([], [], []), w') ∧
    confirmed w' = [] ∧
    lastScanTime w' = Scenario.lastSeen * 1000 + 10 * Scenario.day.
Proof.
  destruct (runScanAndReclaim_nothing_discovered Scenario.tenDaysLater
              (Scenario.reclaimer Scenario.offline 1000000) Scenario.world0)
    as (w' & Hrun & Hconf & _ & _ & Hscan & _).
  - intros signatures Hsigs. discriminate Hsigs.
  - exists w'. split; [exact Hrun|]. split; [exact Hconf|exact Hscan].
Defined.
